(** * SkyShield front-end controller: a shallow embedding

    The JavaScript of the monitoring console (frontend/app.js,
    frontend/sidebar-toggle.js and the detection page script) is embedded
    as Rocq functions over explicit page state.

    - [JsString]    the runtime's string primitives the scripts call
                    ([trim], [toLowerCase], [includes], [parseInt]);
    - [Filter]      [applyFilters] of the detection page;
    - [Reconciler]  the [alerts.forEach] body of [refreshAlerts] and the
                    clear-alerts handler;
    - [Aggregator]  [updateCharts];
    - [Detect]      the click handler of [$btnDetect], as an event-driven
                    state machine with one suspended task per [await]. *)

From stdpp Require Import base decidable option list sets gmap strings sorting pretty.
From Stdlib Require Import ZArith QArith Ascii String Lia.

Close Scope Q_scope.
Local Open Scope string_scope.
Local Open Scope list_scope.
#[local] Set Warnings "-clear-no-such-hyp".

(* ===================================================================== *)
(** ** Runtime string primitives *)
(* ===================================================================== *)

Module JsString.

(** Strings are sequences of ASCII characters: the values handled by the
    scripts (IP addresses, threat labels, prompt entries) are ASCII, and
    the non-ASCII white space and case mappings of the runtime are not
    represented. *)

(** WhiteSpace and LineTerminator code points below 128:
    TAB, LF, VT, FF, CR and SPACE. *)
Definition is_white (c : ascii) : bool :=
  let n := nat_of_ascii c in
  ((9 <=? n)%nat && (n <=? 13)%nat) || (n =? 32)%nat.

Fixpoint trimStart (s : string) : string :=
  match s with
  | EmptyString => EmptyString
  | String c s' => if is_white c then trimStart s' else s
  end.

Fixpoint trimEnd (s : string) : string :=
  match s with
  | EmptyString => EmptyString
  | String c s' =>
      match trimEnd s' with
      | EmptyString => if is_white c then EmptyString else String c EmptyString
      | t => String c t
      end
  end.

(** [String.prototype.trim] *)
Definition trim (s : string) : string := trimEnd (trimStart s).

Definition lower_char (c : ascii) : ascii :=
  let n := nat_of_ascii c in
  if ((65 <=? n)%nat && (n <=? 90)%nat)%bool then ascii_of_nat (n + 32) else c.

(** [String.prototype.toLowerCase] *)
Fixpoint toLowerCase (s : string) : string :=
  match s with
  | EmptyString => EmptyString
  | String c s' => String (lower_char c) (toLowerCase s')
  end.

(** [String.prototype.includes]: [needle] occurs in [hay] at some
    position; the empty needle occurs in every string. *)
Fixpoint includes (hay needle : string) : bool :=
  String.prefix needle hay
  || match hay with
     | EmptyString => false
     | String _ hay' => includes hay' needle
     end.

(** JavaScript truthiness of a string: only the empty string is falsy. *)
Definition truthy (s : string) : bool :=
  match s with EmptyString => false | _ => true end.

(** A property that may be absent ([undefined]), [null] or a string. *)
Inductive field :=
| Absent
| Null
| Str (s : string).

(** [v || ""] for such a property. *)
Definition or_empty (v : field) : string :=
  match v with
  | Str s => s
  | Absent | Null => ""
  end.

(** [v === s] for a string [s]: no coercion, so only a string value can
    be equal to it. *)
Definition strict_eq (v : field) (s : string) : bool :=
  match v with
  | Str t => String.eqb t s
  | Absent | Null => false
  end.

(** A number as the scripts see the result of [parseInt]: [NaN] or an
    integer.  (The runtime stores the integer as a double; the rounding
    of integers above 2^53 is not represented, and no statement below
    depends on it.) *)
Inductive number :=
| NaN
| Int (z : Z).

Definition digit_value (c : ascii) : option Z :=
  let n := nat_of_ascii c in
  if ((48 <=? n)%nat && (n <=? 57)%nat)%bool then Some (Z.of_nat (n - 48)) else None.

Definition hex_value (c : ascii) : option Z :=
  let n := nat_of_ascii c in
  if ((48 <=? n)%nat && (n <=? 57)%nat)%bool then Some (Z.of_nat (n - 48))
  else if ((97 <=? n)%nat && (n <=? 102)%nat)%bool then Some (Z.of_nat (n - 87))
  else if ((65 <=? n)%nat && (n <=? 70)%nat)%bool then Some (Z.of_nat (n - 55))
  else None.

(** Value of the longest prefix of [s] made of digits of the radix;
    [None] when that prefix is empty. *)
Fixpoint digits (value : ascii -> option Z) (radix : Z)
    (acc : option Z) (s : string) : option Z :=
  match s with
  | EmptyString => acc
  | String c s' =>
      match value c with
      | Some d => digits value radix (Some (radix * default 0%Z acc + d)%Z) s'
      | None => acc
      end
  end.

(** [parseInt(s)] with no radix argument: leading white space is
    skipped, then an optional sign, then an optional [0x]/[0X] prefix
    selecting radix 16; the longest run of digits is read and whatever
    follows is ignored; no digit at all gives [NaN]. *)
Definition parseInt (s : string) : number :=
  let s1 := trimStart s in
  let '(neg, s2) :=
    match s1 with
    | String "-" r => (true, r)
    | String "+" r => (false, r)
    | _ => (false, s1)
    end in
  let magnitude :=
    match s2 with
    | String "0" (String "x" r) | String "0" (String "X" r) =>
        digits hex_value 16 None r
    | _ => digits digit_value 10 None s2
    end in
  match magnitude with
  | None => NaN
  | Some m => Int (if neg then - m else m)%Z
  end.

End JsString.

(* ===================================================================== *)
(** ** Result filter pipeline: [applyFilters] *)
(* ===================================================================== *)

Module Filter.
Import JsString.

(** One element of [response.analyzed_events]. *)
Record result := Result {
  source_ip : field;
  threat_label : field;
  threat_score : option Q;      (* [None]: the property is not a number *)
  action_taken : field;
  timestamp : field;
}.

(** A rendered table row of [$detectBody]: the interpolated cells. *)
Record row := Row {
  row_ip : field;
  row_label : field;
  row_color : string;
  row_score : Q;                (* shown with [toFixed(4)] *)
  row_action : field;
  row_time : field;             (* shown through [formatTime] *)
}.

(** Content of [$detectBody]. *)
Inductive body :=
| Message (text : string)       (* the single full-width guidance row *)
| Rows (rows : list row).

(** The DOM nodes [applyFilters] reads and writes. *)
Record dom := Dom {
  filterThreat : string;        (* [$filterThreat.value] *)
  filterIP : string;            (* [$filterIP.value] *)
  resultsCount : nat;           (* [$resultsCount.textContent] *)
  detectBody : body;
}.

Definition color (r : result) : string :=
  if strict_eq (threat_label r) "Attack" then "text-red-400"
  else if strict_eq (threat_label r) "Suspicious" then "text-orange-400"
  else "text-green-400".

(** The callback of [filtered.map]; [r.threat_score.toFixed(4)] throws a
    TypeError when the score is missing. *)
Definition render (r : result) : option row :=
  match threat_score r with
  | Some q =>
      Some (Row (source_ip r) (threat_label r) (color r) q
                (action_taken r) (timestamp r))
  | None => None
  end.

(** Lines 28-38: the two conditional [Array.prototype.filter] passes. *)
Definition filtered (threatFilter ipValue : string)
    (allDetectionResults : list result) : list result :=
  let filtered := allDetectionResults in
  let filtered :=
    if negb (String.eqb threatFilter "all")
    then List.filter (fun r => strict_eq (threat_label r) threatFilter) filtered
    else filtered in
  let ipFilter := toLowerCase (trim ipValue) in
  let filtered :=
    if truthy ipFilter
    then List.filter
           (fun r => includes (toLowerCase (or_empty (source_ip r))) ipFilter)
           filtered
    else filtered in
  filtered.

(** [applyFilters]: the new DOM, and whether a TypeError escaped.  The
    count is written before the rows are rendered, so it is updated even
    when rendering throws. *)
Definition applyFilters (allDetectionResults : list result) (d : dom)
    : dom * bool :=
  let f := filtered (filterThreat d) (filterIP d) allDetectionResults in
  let d1 := Dom (filterThreat d) (filterIP d) (List.length f) (detectBody d) in
  if (List.length f =? 0)%nat then
    (Dom (filterThreat d1) (filterIP d1) (resultsCount d1)
         (Message (if (List.length allDetectionResults =? 0)%nat
                   then "No logs to analyze"
                   else "No results match your filters")),
     false)
  else
    match mapM render f with
    | Some rows =>
        (Dom (filterThreat d1) (filterIP d1) (resultsCount d1) (Rows rows), false)
    | None => (d1, true)
    end.

(** *** The predicates, as the specification words them *)

(** "[threatLabel = "all"] matches everything; otherwise exact match on
    label." *)
Definition label_matches (threatLabel : string) (r : result) : bool :=
  String.eqb threatLabel "all" || strict_eq (threat_label r) threatLabel.

(** "[ipSubstring], case-insensitively normalized, matches when the
    alert's source IP contains it as a substring; an empty string matches
    everything." *)
Definition spec_ip_matches (ipSubstring : string) (r : result) : bool :=
  includes (toLowerCase (or_empty (source_ip r))) (toLowerCase ipSubstring).

Definition spec_view (threatLabel ipSubstring : string)
    (R : list result) : list result * nat :=
  let v := List.filter
             (fun r => label_matches threatLabel r && spec_ip_matches ipSubstring r) R in
  (v, List.length v).

(** The IP predicate the code evaluates: the filter text is trimmed
    before it is lower-cased and searched for. *)
Definition ip_matches (ipSubstring : string) (r : result) : bool :=
  includes (toLowerCase (or_empty (source_ip r))) (toLowerCase (trim ipSubstring)).

(** [view()]: the filtered sequence together with the count shown in
    [$resultsCount]. *)
Definition view (threatLabel ipSubstring : string) (R : list result)
    : list result * nat :=
  (filtered threatLabel ipSubstring R,
   resultsCount (fst (applyFilters R (Dom threatLabel ipSubstring 0 (Message ""))))).

(** *** Sample records *)

Definition lacking_ip : result :=
  Result Absent (Str "Attack") (Some (9 # 10)%Q) (Str "blocked") (Str "2024-01-01T00:00:00Z").

Definition plain : result :=
  Result (Str "10.0.0.1") (Str "Normal") (Some (1 # 10)%Q) (Str "none") (Str "2024-01-01T00:00:00Z").

End Filter.

(* ===================================================================== *)
(** ** Alerts, as returned by [GET /alerts] *)
(* ===================================================================== *)

Module Alerts.
Import JsString.

Record alert := Alert {
  log_id : string;
  source_ip : field;
  threat_label : field;
  threat_score : option Q;      (* [None]: null or absent, shown as 0 *)
  action_taken : field;
  timestamp : string;           (* ISO-8601 text *)
}.

(** [alerts.filter(a => a.threat_label === label).length] *)
Definition tally (label : string) (alerts : list alert) : nat :=
  List.length (List.filter (fun a => strict_eq (threat_label a) label) alerts).

End Alerts.

(* ===================================================================== *)
(** ** Alert reconciler: [refreshAlerts] and the clear-alerts handler *)
(* ===================================================================== *)

Module Reconciler.
Import JsString Alerts.

(** A child of [$alertsList]: the "No alerts yet" item of the markup, or
    the [li] built from an alert (its markup is a function of the alert,
    so the alert stands for it). *)
Inductive node :=
| Placeholder
| Item (a : alert).

Record state := State {
  knownAlertIds : gset string;
  children : list node;         (* [$alertsList.children], first child first *)
  alertCount : nat;              (* [$alertCount.textContent] *)
}.

(** [while ($alertsList.children.length > 51) removeChild(lastChild)].
    Every iteration removes one child, so [length children] iterations
    are enough fuel. *)
Fixpoint evict_loop (fuel : nat) (children : list node) : list node :=
  match fuel with
  | O => children
  | S fuel' =>
      if (51 <? List.length children)%nat
      then evict_loop fuel' (removelast children)
      else children
  end.

Definition evict (children : list node) : list node :=
  evict_loop (List.length children) children.

(** The callback of [alerts.forEach]: the new state, and whether an item
    was created for [a]. *)
Definition forEach_body (a : alert) (s : state) : state * bool :=
  if decide (log_id a ∈ knownAlertIds s) then (s, false)
  else
    (State ({[log_id a]} ∪ knownAlertIds s)
           (evict (Item a :: children s))
           (alertCount s),
     true).

(** [alerts.forEach(...)], collecting the alerts an item was created
    for, in input order. *)
Fixpoint forEach (alerts : list alert) (s : state) : state * list alert :=
  match alerts with
  | [] => (s, [])
  | a :: rest =>
      let '(s1, created) := forEach_body a s in
      let '(s2, fresh) := forEach rest s1 in
      (s2, if created then a :: fresh else fresh)
  end.

(** [refreshAlerts] once [api("/alerts")] has resolved to [alerts].
    (When the request fails nothing of this state is touched.) *)
Definition reconcile (alerts : list alert) (s : state) : state * list alert :=
  let s := State (knownAlertIds s) (children s) (List.length alerts) in
  if (List.length alerts =? 0)%nat then (s, [])
  else forEach alerts s.

(** The clear-alerts handler once [api("/alerts/clear")] has resolved. *)
Definition clear (s : state) : state :=
  State ∅ [Placeholder] 0.

(** The page as loaded: no id seen, and a list holding [placeholders]
    static items and no alert. *)
Definition initial (placeholders : nat) : state :=
  State ∅ (replicate placeholders Placeholder) 0.

Definition item_alert (n : node) : option alert :=
  match n with Item a => Some a | Placeholder => None end.

(** The rendered feed: the alerts that have an item in the list, newest
    first. *)
Definition feed (s : state) : list alert := omap item_alert (children s).

Definition feed_ids (s : state) : list string := log_id <$> feed s.

Inductive op :=
| Poll (alerts : list alert)
| Clear.

Definition apply (s : state) (o : op) : state :=
  match o with
  | Poll alerts => fst (reconcile alerts s)
  | Clear => clear s
  end.

Definition run (ops : list op) (s : state) : state := foldl apply s ops.

(** Number of feed entries carrying a given id. *)
Definition entries (id : string) (s : state) : nat :=
  List.length (List.filter (fun a => String.eqb (log_id a) id) (feed s)).

(** The feed shows seen ids only, each once. *)
Definition feed_ok (s : state) : Prop :=
  NoDup (feed_ids s) /\ forall id, id ∈ feed_ids s -> id ∈ knownAlertIds s.

(** *** Sample alerts *)

Definition sample (i : nat) : alert :=
  Alert (String.string_of_list_ascii (replicate i "a"%char))
        (Str "10.0.0.1") (Str "Attack") None (Str "blocked") "2024-01-01T00:00:00Z".

(** [n] alerts with pairwise different ids. *)
Definition samples (n : nat) : list alert := sample <$> seq 1 n.

End Reconciler.

(* ===================================================================== *)
(** ** Series aggregator: [updateCharts] *)
(* ===================================================================== *)

Module Aggregator.
Import JsString Alerts.

(** The data of the line chart. *)
Record timeline := Timeline {
  labels : list string;
  attackData : list nat;
  suspData : list nat;
}.

(** The two chart instances; [None] while the canvas is missing. *)
Record charts := Charts {
  threatChart : option (list nat);
  timelineChart : option timeline;
}.

(** [initCharts] when both canvases exist. *)
Definition initCharts : charts :=
  Charts (Some [0; 0; 0]%nat) (Some (Timeline [] [] [])).

(** [Math.ceil(n / d)] for array lengths [n] and [d > 0]. *)
Definition ceil_div (n d : nat) : nat := ((n + d - 1) / d)%nat.

(** [arr.slice(from, to)] for [0 <= from <= to]. *)
Definition slice {A} (arr : list A) (from to : nat) : list A :=
  take (to - from) (drop from arr).

Section Runtime.
(** The time value of [new Date(iso)] in milliseconds, and
    [toLocaleTimeString('en-US', {hour: '2-digit', minute: '2-digit'})]
    of such a time value; both belong to the runtime (time zone and
    locale data), and the timestamps are taken to be valid dates. *)
Variable time_value : string -> Z.
Variable hour_minute : Z -> string.

Definition time_of (a : alert) : Z := time_value (timestamp a).

(** [[...alerts].sort((a, b) => new Date(a.timestamp) - new Date(b.timestamp))]:
    the sort is stable, an alert is placed before the first one that is
    not earlier than it. *)
Fixpoint insert (a : alert) (sorted : list alert) : list alert :=
  match sorted with
  | [] => [a]
  | b :: rest =>
      if (time_of a - time_of b <=? 0)%Z then a :: b :: rest
      else b :: insert a rest
  end.

Definition sort (alerts : list alert) : list alert := foldr insert [] alerts.

Definition bucketCount (alerts : list alert) : nat :=
  Nat.min 10 (ceil_div (List.length alerts) 5).

Definition bucketSize (alerts : list alert) : nat :=
  ceil_div (List.length (sort alerts)) (bucketCount alerts).

(** One iteration of the [for] loop over the bucket index [i]. *)
Definition bucket_step (sortedAlerts : list alert) (bucketSize : nat)
    (acc : timeline) (i : nat) : timeline :=
  let bucketAlerts := slice sortedAlerts (i * bucketSize) ((i + 1) * bucketSize) in
  match bucketAlerts with
  | [] => acc                                   (* [continue] *)
  | first :: _ =>
      let attacks := tally "Attack" bucketAlerts in
      let suspicious := tally "Suspicious" bucketAlerts in
      let timeLabel := hour_minute (time_of first) in
      Timeline (labels acc ++ [timeLabel])
               (attackData acc ++ [attacks])
               (suspData acc ++ [suspicious])
  end.

(** The timeline the loop builds for a non-empty [alerts]. *)
Definition build_timeline (alerts : list alert) : timeline :=
  let sortedAlerts := sort alerts in
  foldl (bucket_step sortedAlerts (bucketSize alerts))
        (Timeline [] [] [])
        (seq 0 (bucketCount alerts)).

Definition updateCharts (alerts : list alert) (c : charts) : charts :=
  let attackCount := tally "Attack" alerts in
  let suspiciousCount := tally "Suspicious" alerts in
  let normalCount := tally "Normal" alerts in
  let c :=
    match threatChart c with
    | Some _ => Charts (Some [attackCount; suspiciousCount; normalCount]) (timelineChart c)
    | None => c
    end in
  match timelineChart c with
  | Some _ =>
      if (0 <? List.length alerts)%nat
      then Charts (threatChart c) (Some (build_timeline alerts))
      else c
  | None => c
  end.

(** *** The timeline, as the specification words it *)

(** Contiguous chunks of [size] elements; the last one may be shorter,
    and none is empty. *)
Fixpoint chunks_fuel (fuel size : nat) (l : list alert) : list (list alert) :=
  match fuel, l with
  | S fuel', _ :: _ => take size l :: chunks_fuel fuel' size (drop size l)
  | _, _ => []
  end.

Definition chunks (size : nat) (l : list alert) : list (list alert) :=
  chunks_fuel (List.length l) size l.

Definition bucket_label (chunk : list alert) : string :=
  match chunk with
  | first :: _ => hour_minute (time_of first)
  | [] => ""
  end.

Definition spec_timeline (alerts : list alert) : timeline :=
  let n := List.length alerts in
  let count := Nat.min 10 (ceil_div n 5) in
  let size := ceil_div n count in
  let cs := if (n =? 0)%nat then [] else chunks size (sort alerts) in
  Timeline (bucket_label <$> cs) (tally "Attack" <$> cs) (tally "Suspicious" <$> cs).

(** Ascending by time value. *)
Definition ascending (l : list alert) : Prop :=
  Sorted (fun a b => (time_of a <= time_of b)%Z) l.

End Runtime.

Definition nonempty (l : list alert) : bool :=
  match l with [] => false | _ => true end.

(** The slices the loop of [updateCharts] looks at for the indices
    [js], empty ones dropped. *)
Definition emitted (l : list alert) (size : nat) (js : list nat) : list (list alert) :=
  List.filter nonempty ((fun j : nat => take size (drop (j * size) l)) <$> js).

(** *** Sample data *)

Definition an_attack : alert :=
  Alert "a1" (Str "10.0.0.1") (Str "Attack") (Some (9 # 10)%Q) (Str "blocked")
        "2024-01-01T00:00:00Z".

(** A runtime for the examples: every timestamp is the same instant. *)
Definition same_instant (iso : string) : Z := 0.
Definition midnight (t : Z) : string := "12:00 AM".

End Aggregator.

(* ===================================================================== *)
(** ** Job controller: the click handler of [$btnDetect] *)
(* ===================================================================== *)

(** What the two versions of the handler share: requests, replies,
    dialogs, and the value sent as [limit]. *)
Module Http.
Import JsString.

(** The value of the local variable [limit]. *)
Inductive limit :=
| LimitNull
| LimitNumber (n : number).

(** A JSON value in the position of [limit] in a request body. *)
Inductive json :=
| JsonNull
| JsonNumber (z : Z).

(** [JSON.stringify({ limit: limit })]: [null] and [NaN] both serialise
    as [null]. *)
Definition stringify (l : limit) : json :=
  match l with
  | LimitNull => JsonNull
  | LimitNumber NaN => JsonNull
  | LimitNumber (Int z) => JsonNumber z
  end.

Inductive request :=
| GetLogsCount                  (* GET /logs/count *)
| PostDetect (limit : json)     (* POST /detect {limit} *)
| PostDetectCancel              (* POST /detect/cancel *)
| GetAlerts                     (* GET /alerts *)
| GetStats.                     (* GET /stats *)

(** The JSON object of a successful reply, with the properties the
    handler reads; a property the reply lacks is [None]. *)
Record object := Object {
  count : option Z;
  analyzed_events : option (list Filter.result);
  cancelled : bool;
  analyzed_count : option Z;
  total_logs : option Z;
}.

(** How an [await api(...)] settles: [api] throws when the request
    fails, the status is not ok, or the body is not JSON. *)
Inductive reply :=
| Rejected (message : string)
| Body (o : object).

(** A value caught by the handler's [catch]. *)
Inductive error :=
| ApiError (message : string)
| TypeError.                    (* a property read on [undefined] *)

(** A dialog shown with [alert]. *)
Inductive dialog :=
| Stopped (analyzed total : Z)
| Analyzed (n : Z)
| DetectionFailed (e : error).

(** The [prompt] branch: [entry] is what the dialog returns, [None]
    when it is dismissed.
<<
    let limit = null;
    if (logCount.count > 10000) {
      const userLimit = prompt(...);
      if (userLimit) limit = parseInt(userLimit);
    }
>> *)
Definition choose_limit (logCount : object) (entry : option string) : limit :=
  match count logCount with
  | Some c =>
      if (10000 <? c)%Z then
        match entry with
        | Some userLimit =>
            if truthy userLimit then LimitNumber (parseInt userLimit) else LimitNull
        | None => LimitNull
        end
      else LimitNull
  | None => LimitNull
  end.

End Http.

(** The handler of the detection page script (the same handler is in
    frontend/sidebar-toggle.js): [detectionInProgress] is the job state,
    and a click during a run asks the backend to cancel. *)
Module Detect.
Import JsString Http.

Inductive label :=
| RunDetection
| StopAnalysis
| Cancelling.

(** A suspended invocation of the handler, named by the [await] it is
    parked at. *)
Inductive task :=
| AwaitCount                    (* [await api("/logs/count")] *)
| AwaitDetect                   (* [await api("/detect", ...)] *)
| AwaitCancel.                  (* [await api("/detect/cancel", ...)] *)

Definition is_run (t : task) : bool :=
  match t with AwaitCount | AwaitDetect => true | AwaitCancel => false end.

Record page := Page {
  detectionInProgress : bool;
  allDetectionResults : list Filter.result;
  dom : Filter.dom;
  btnLabel : label;             (* [$btnDetect.innerHTML] *)
  btnDisabled : bool;           (* [$btnDetect.disabled] *)
  sent : list request;          (* requests issued so far, oldest first *)
  pending : list task;          (* suspended invocations *)
  dialogs : list dialog;        (* [alert] calls so far, oldest first *)
  console : list string;        (* [console.error] calls so far *)
}.

Definition initial (d : Filter.dom) : page :=
  Page false [] d RunDetection false [] [] [] [].

(** How a stretch of the [try] block ends: it runs to the end of the
    block, throws, or parks at the next [await]. *)
Inductive completion :=
| Normal (p : page)
| Throw (e : error) (p : page)
| Await (t : task) (p : page).

Definition set_pending (ts : list task) (p : page) : page :=
  Page (detectionInProgress p) (allDetectionResults p) (dom p) (btnLabel p)
       (btnDisabled p) (sent p) ts (dialogs p) (console p).

Definition send (r : request) (p : page) : page :=
  Page (detectionInProgress p) (allDetectionResults p) (dom p) (btnLabel p)
       (btnDisabled p) (sent p ++ [r]) (pending p) (dialogs p) (console p).

Definition alert (d : dialog) (p : page) : page :=
  Page (detectionInProgress p) (allDetectionResults p) (dom p) (btnLabel p)
       (btnDisabled p) (sent p) (pending p) (dialogs p ++ [d]) (console p).

Definition console_error (m : string) (p : page) : page :=
  Page (detectionInProgress p) (allDetectionResults p) (dom p) (btnLabel p)
       (btnDisabled p) (sent p) (pending p) (dialogs p) (console p ++ [m]).

Definition set_label (l : label) (p : page) : page :=
  Page (detectionInProgress p) (allDetectionResults p) (dom p) l
       (btnDisabled p) (sent p) (pending p) (dialogs p) (console p).

(** [catch (err) { alert("Detection failed: " + err.message); }] *)
Definition catch_block (e : error) (p : page) : page :=
  alert (DetectionFailed e) p.

(** [finally { detectionInProgress = false; $btnDetect.disabled = false;
    $btnDetect.innerHTML = ... Run Detection; ... }] *)
Definition finally_block (p : page) : page :=
  Page false (allDetectionResults p) (dom p) RunDetection false
       (sent p) (pending p) (dialogs p) (console p).

(** [try { ... } catch { ... } finally { ... }] around a stretch of the
    body: an [await] parks the invocation inside the [try]. *)
Definition try_catch_finally (c : completion) : page :=
  match c with
  | Normal p => finally_block p
  | Throw e p => finally_block (catch_block e p)
  | Await t p => set_pending (pending p ++ [t]) p
  end.

(** From [const logCount = await api("/logs/count")] to the next
    [await]. *)
Definition after_count (r : reply) (entry : option string) (p : page) : completion :=
  match r with
  | Rejected m => Throw (ApiError m) p
  | Body logCount =>
      let limit := choose_limit logCount entry in
      Await AwaitDetect (send (PostDetect (stringify limit)) p)
  end.

(** From [const response = await api("/detect", ...)] to the end of the
    [try] block. *)
Definition after_detect (r : reply) (p : page) : completion :=
  match r with
  | Rejected m => Throw (ApiError m) p
  | Body response =>
      let results := default [] (analyzed_events response) in
      let '(d, threw) := Filter.applyFilters results (dom p) in
      let p := Page (detectionInProgress p) results d (btnLabel p)
                    (btnDisabled p) (sent p) (pending p) (dialogs p) (console p) in
      if threw then Throw TypeError p
      else if cancelled response then
        match analyzed_count response, total_logs response with
        | Some a, Some t => Normal (alert (Stopped a t) p)
        | _, _ => Throw TypeError p
        end
      else
        match analyzed_count response with
        | Some a => Normal (alert (Analyzed a) p)
        | None => Throw TypeError p
        end
  end.

(** A click on [$btnDetect]: the handler up to its first [await]. *)
Definition click (p : page) : page :=
  if detectionInProgress p then
    set_pending (pending p ++ [AwaitCancel]) (send PostDetectCancel p)
  else
    let p := Page true (allDetectionResults p) (dom p) StopAnalysis
                  (btnDisabled p) (sent p) (pending p) (dialogs p) (console p) in
    try_catch_finally (Await AwaitCount (send GetLogsCount p)).

(** The request awaited by the [i]-th suspended invocation settles with
    [r]; [entry] is what the user answers should the prompt be shown. *)
Definition settle (i : nat) (r : reply) (entry : option string) (p : page) : page :=
  match pending p !! i with
  | None => p
  | Some t =>
      let p := set_pending (delete i (pending p)) p in
      match t with
      | AwaitCount => try_catch_finally (after_count r entry p)
      | AwaitDetect => try_catch_finally (after_detect r p)
      | AwaitCancel =>
          match r with
          | Body _ => set_label Cancelling p
          | Rejected m => console_error "Cancel failed:" p
          end
      end
  end.

(** A change of the filter controls: [applyFilters] as a listener. *)
Definition filter_changed (threat ip : string) (p : page) : page :=
  let d := Filter.Dom threat ip (Filter.resultsCount (dom p)) (Filter.detectBody (dom p)) in
  Page (detectionInProgress p) (allDetectionResults p)
       (fst (Filter.applyFilters (allDetectionResults p) d))
       (btnLabel p) (btnDisabled p) (sent p) (pending p) (dialogs p) (console p).

Inductive event :=
| Click
| Settle (i : nat) (r : reply) (entry : option string)
| FilterChanged (threat ip : string).

Definition step (p : page) (e : event) : page :=
  match e with
  | Click => click p
  | Settle i r entry => settle i r entry p
  | FilterChanged threat ip => filter_changed threat ip p
  end.

Definition run (es : list event) (p : page) : page := foldl step p es.

(** Detection runs in flight: invocations parked in the [try] block. *)
Definition runs_in_flight (p : page) : nat :=
  List.length (List.filter is_run (pending p)).

(** The requests a step issues. *)
Definition issued (p : page) (e : event) : list request :=
  drop (List.length (sent p)) (sent (step p e)).

Definition runs (ts : list task) : nat := List.length (List.filter is_run ts).

(** The flag is set exactly while one invocation is parked inside the
    [try] block. *)
Definition flag_tracks_run (p : page) : Prop :=
  runs_in_flight p = if detectionInProgress p then 1 else 0.

Definition idle (p : page) : Prop :=
  detectionInProgress p = false /\
  btnLabel p = RunDetection /\
  runs_in_flight p = 0.

(** *** Sample pages *)

Definition no_filter : Filter.dom := Filter.Dom "all" "" 0 (Filter.Message "").

Definition many_logs : object := Object (Some 20000%Z) None false None None.

(** A page with a run parked on [/logs/count]. *)
Definition running : page := click (initial no_filter).

End Detect.

(** The handler of frontend/app.js: no job flag; the button is disabled
    for the duration of the run, and a disabled button receives no click. *)
Module DetectApp.
Import JsString Http.

Inductive label :=
| RunDetection
| Analyzing.

Inductive task :=
| AwaitCount                    (* [await api("/logs/count")] *)
| AwaitDetect                   (* [await api("/detect", ...)] *)
| AwaitRefresh.                 (* [await Promise.all([refreshAlerts(), refreshStats()])] *)

Record page := Page {
  btnDisabled : bool;
  btnLabel : label;
  sent : list request;
  pending : list task;
  dialogs : list dialog;
}.

Definition initial : page := Page false RunDetection [] [] [].

Inductive completion :=
| Normal (p : page)
| Throw (e : error) (p : page)
| Await (t : task) (p : page).

Definition send (rs : list request) (p : page) : page :=
  Page (btnDisabled p) (btnLabel p) (sent p ++ rs) (pending p) (dialogs p).

Definition alert (d : dialog) (p : page) : page :=
  Page (btnDisabled p) (btnLabel p) (sent p) (pending p) (dialogs p ++ [d]).

Definition set_pending (ts : list task) (p : page) : page :=
  Page (btnDisabled p) (btnLabel p) (sent p) ts (dialogs p).

Definition catch_block (e : error) (p : page) : page :=
  alert (DetectionFailed e) p.

Definition finally_block (p : page) : page :=
  Page false RunDetection (sent p) (pending p) (dialogs p).

Definition try_catch_finally (c : completion) : page :=
  match c with
  | Normal p => finally_block p
  | Throw e p => finally_block (catch_block e p)
  | Await t p => set_pending (pending p ++ [t]) p
  end.

Definition after_count (r : reply) (entry : option string) (p : page) : completion :=
  match r with
  | Rejected m => Throw (ApiError m) p
  | Body logCount =>
      let limit := choose_limit logCount entry in
      Await AwaitDetect (send [PostDetect (stringify limit)] p)
  end.

(** [formatNumber] turns a missing count into 0 instead of throwing. *)
Definition safeNumber (v : option Z) : Z := default 0%Z v.

(** After the dialog, [refreshAlerts()] and [refreshStats()] are called;
    each issues its requests before the handler parks on [Promise.all]. *)
Definition after_detect (r : reply) (p : page) : completion :=
  match r with
  | Rejected m => Throw (ApiError m) p
  | Body response =>
      let p :=
        if cancelled response
        then alert (Stopped (safeNumber (analyzed_count response))
                            (safeNumber (total_logs response))) p
        else alert (Analyzed (safeNumber (analyzed_count response))) p in
      Await AwaitRefresh (send [GetAlerts; GetStats; GetLogsCount] p)
  end.

Definition after_refresh (r : reply) (p : page) : completion :=
  match r with
  | Rejected m => Throw (ApiError m) p
  | Body _ => Normal p
  end.

(** The handler up to its first [await]. *)
Definition handler (p : page) : page :=
  let p := Page true Analyzing (sent p) (pending p) (dialogs p) in
  try_catch_finally (Await AwaitCount (send [GetLogsCount] p)).

(** A click on the button: the browser delivers it to the listener only
    while the button is enabled. *)
Definition click (p : page) : page :=
  if btnDisabled p then p else handler p.

Definition settle (i : nat) (r : reply) (entry : option string) (p : page) : page :=
  match pending p !! i with
  | None => p
  | Some t =>
      let p := set_pending (delete i (pending p)) p in
      match t with
      | AwaitCount => try_catch_finally (after_count r entry p)
      | AwaitDetect => try_catch_finally (after_detect r p)
      | AwaitRefresh => try_catch_finally (after_refresh r p)
      end
  end.

Inductive event :=
| Click
| Settle (i : nat) (r : reply) (entry : option string).

Definition step (p : page) (e : event) : page :=
  match e with
  | Click => click p
  | Settle i r entry => settle i r entry p
  end.

Definition run (es : list event) (p : page) : page := foldl step p es.

Definition runs_in_flight (p : page) : nat := List.length (pending p).

Definition issued (p : page) (e : event) : list request :=
  drop (List.length (sent p)) (sent (step p e)).

(** The button is disabled exactly while one invocation is parked. *)
Definition disabled_tracks_run (p : page) : Prop :=
  runs_in_flight p = if btnDisabled p then 1 else 0.

Definition idle (q : page) : Prop :=
  btnDisabled q = false /\
  btnLabel q = RunDetection /\
  runs_in_flight q = 0.

End DetectApp.

(** Statement vocabulary and sample data for the charts. *)
Module AggregatorAux.
Import JsString Alerts Aggregator.

(** An alert counted in the doughnut chart. *)
Definition charted (a : alert) : Prop :=
  threat_label a = Str "Attack" \/ threat_label a = Str "Suspicious" \/
  threat_label a = Str "Normal".

(** A runtime for the examples that tells timestamps apart by their
    length. *)
Definition length_clock (iso : string) : Z := Z.of_nat (String.length iso).

Definition early : alert :=
  Alert "e" (Str "10.0.0.1") (Str "Attack") None (Str "blocked") "1".

Definition late : alert :=
  Alert "l" (Str "10.0.0.2") (Str "Suspicious") None (Str "flagged") "22".

End AggregatorAux.

(** Statement vocabulary for the request log of the detection page. *)
Module DetectAux.
Import Http Detect.

Definition is_count_request (r : request) : bool :=
  match r with GetLogsCount => true | _ => false end.

Definition is_detect_request (r : request) : bool :=
  match r with PostDetect _ => true | _ => false end.

Definition is_cancel_request (r : request) : bool :=
  match r with PostDetectCancel => true | _ => false end.

Definition awaits_count (t : task) : bool :=
  match t with AwaitCount => true | _ => false end.

Definition awaits_detect (t : task) : bool :=
  match t with AwaitDetect => true | _ => false end.

Definition how_many {A} (f : A -> bool) (l : list A) : nat :=
  List.length (List.filter f l).

(** Every result can be rendered: its score is a number. *)
Definition scored (r : Filter.result) : Prop :=
  Filter.threat_score r <> None.

(** The request log and the parked invocations stay in step. *)
Definition in_step (p : page) : Prop :=
  how_many is_detect_request (sent p) + how_many awaits_count (pending p)
    <= how_many is_count_request (sent p) /\
  how_many awaits_detect (pending p) <= how_many is_detect_request (sent p) /\
  (detectionInProgress p = true -> 1 <= how_many is_count_request (sent p)) /\
  (how_many is_count_request (sent p) = 0 -> sent p = []) /\
  (head (sent p) = None \/ head (sent p) = Some GetLogsCount).

End DetectAux.

(* ===================================================================== *)
(** ** The sidebar toggle: [initSidebarToggle] *)
(* ===================================================================== *)

Module Sidebar.

(** What [initSidebarToggle] and its listener read and write: an element
    that is missing is [None]; for one that exists, the flag tells whether
    its class list holds [collapsed] (for [.main-content],
    [sidebar-collapsed]). *)
Record page := Page {
  sidebar : option bool;
  sidebarToggle : bool;         (* [#sidebarToggle] exists *)
  mainContent : option bool;
  stored : option string;       (* [localStorage.getItem("sidebarCollapsed")] *)
  listening : bool;             (* the click listener is registered *)
}.

(** [String(b)] for a boolean, as [localStorage.setItem] stores it. *)
Definition string_of_bool (b : bool) : string := if b then "true" else "false".

Definition initSidebarToggle (p : page) : page :=
  match sidebar p with
  | Some collapsed =>
      if sidebarToggle p then
        let isCollapsed := bool_decide (stored p = Some "true") in
        Page (Some (if isCollapsed then true else collapsed))
             (sidebarToggle p)
             (if isCollapsed then (fun _ => true) <$> mainContent p else mainContent p)
             (stored p)
             true
      else p
  | None => p
  end.

(** The click listener of the toggle button. *)
Definition toggle (p : page) : page :=
  match sidebar p with
  | Some collapsed =>
      Page (Some (negb collapsed)) (sidebarToggle p) (negb <$> mainContent p)
           (Some (string_of_bool (negb collapsed))) (listening p)
  | None => p
  end.

(** A click on the toggle button reaches the listener only once it is
    registered. *)
Definition click (p : page) : page :=
  if listening p then toggle p else p.

(** Loading a page: the markup as served, the storage as the browser
    kept it, then the script. *)
Definition load (markup : page) (storage : option string) : page :=
  initSidebarToggle
    (Page (sidebar markup) (sidebarToggle markup) (mainContent markup) storage false).

(** The markup has both elements and serves them expanded. *)
Definition expanded_markup (m : page) : Prop :=
  sidebar m = Some false /\ sidebarToggle m = true /\
  (mainContent m = None \/ mainContent m = Some false).

Definition clicks (n : nat) (p : page) : page := Nat.iter n click p.

(** The classes and the stored flag agree, relative to the markup. *)
Definition synced (m p : page) : Prop :=
  exists c : bool,
    sidebar p = Some c /\
    mainContent p = (fun _ => c) <$> mainContent m /\
    sidebarToggle p = true /\ listening p = true /\
    (c = true <-> stored p = Some "true").

Definition sample_markup : page := Page (Some false) true (Some false) None false.

End Sidebar.

(* ===================================================================== *)
(** ** The logs table: [refreshLogs] *)
(* ===================================================================== *)

Module LogsTable.
Import JsString.

(** A JSON value as a property of a stored log; [Undefined] is what
    reading a missing property gives. *)
Inductive value :=
| Undefined
| Null
| Bool (b : bool)
| Num (q : Q)
| Str (s : string)
| Nested.                       (* an array or an object *)

(** Truthiness, as [||] tests it. *)
Definition truthy_value (v : value) : bool :=
  match v with
  | Undefined | Null => false
  | Bool b => b
  | Num q => negb (Qnum q =? 0)%Z
  | Str s => truthy s
  | Nested => true
  end.

(** [a || b] *)
Definition or (a b : value) : value := if truthy_value a then a else b.

(** [l[key]] *)
Definition get (l : gmap string value) (key : string) : value :=
  default Undefined (l !! key).

(** The cells of a table row, before the numbers go through
    [formatNumber]. *)
Record row := Row {
  sourceIP : value;
  bytesSent : value;
  bytesRecv : value;
  duration : value;
  packets : value;
}.

(** The callback of [recent.map] in frontend/app.js. *)
Definition row_of (l : gmap string value) : row :=
  Row (or (or (or (get l "source_ip") (get l "Source IP")) (get l "Src IP")) (Str "—"))
      (or (or (or (get l "Total Length of Fwd Packet") (get l "Fwd Packet Length Total"))
              (get l "bytes_sent")) (Num 0))
      (or (or (or (get l "Total Length of Bwd Packet") (get l "Bwd Packet Length Total"))
              (get l "bytes_received")) (Num 0))
      (or (or (get l "Flow Duration") (get l "duration")) (Num 0))
      (or (or (or (get l "Total Fwd Packet") (get l "Total Fwd Packets"))
              (get l "packets")) (Num 0)).

(** Content of [$logsBody]. *)
Inductive body :=
| NoLogsYet
| Rows (rows : list row).

(** [logs.slice(-n)] *)
Definition slice_last {A} (n : nat) (logs : list A) : list A :=
  drop (List.length logs - n) logs.

(** [refreshLogs] of frontend/app.js once [api("/logs")] has resolved to
    [logs].  (When the request fails the table is left as it is.) *)
Definition refreshLogs (logs : list (gmap string value)) : body :=
  if (List.length logs =? 0)%nat then NoLogsYet
  else
    let recent := reverse (slice_last 10 logs) in
    Rows (row_of <$> recent).


Definition sample_log : gmap string value :=
  {[ "Source IP" := Str "10.1.1.1"; "Total Length of Fwd Packet" := Num 0;
     "bytes_sent" := Num (512 # 1) ]}.

End LogsTable.

(* ===================================================================== *)
(** ** The health label of [refreshStats] *)
(* ===================================================================== *)

Module Health.

(** [h >= c] for [h = stats.health_score]; [None] stands for a score that
    is missing, for which every comparison is false. *)
Definition at_least (h : option Q) (c : Z) : bool :=
  match h with
  | Some q => Qle_bool (inject_Z c) q
  | None => false
  end.

(** [h >= 80 ? "Optimal" : h >= 50 ? "Moderate" : "Critical"] *)
Definition word (h : option Q) : string :=
  if at_least h 80 then "Optimal" else if at_least h 50 then "Moderate" else "Critical".

(** [h >= 80 ? "text-green-400" : h >= 50 ? "text-orange-400" : "text-red-400"] *)
Definition className (h : option Q) : string :=
  if at_least h 80 then "text-green-400"
  else if at_least h 50 then "text-orange-400"
  else "text-red-400".

(** How good a word is. *)
Definition rank (w : string) : nat :=
  if String.eqb w "Optimal" then 2 else if String.eqb w "Moderate" then 1 else 0.

End Health.

(* ===================================================================== *)
(** ** The details dialog: [showAlertDetails] *)
(* ===================================================================== *)

Module AlertDetails.
Import JsString Alerts.

Global Instance field_eq_dec : EqDecision field.
Proof. solve_decision. Defined.

(** Content of [$modalAlertsBody]. *)
Inductive body :=
| NoneFound (lowercased : string)   (* "No ... alerts found" *)
| Rows (rows : list alert).

(** What [showAlertDetails] writes.  ([$modalAvgScore], a floating-point
    mean, is not represented.) *)
Record modal := Modal {
  icon : string;
  color : string;
  modalTotal : nat;
  modalUniqueIPs : nat;
  modalAlertsBody : body;
  hidden : bool;
}.

(** [new Set(values).size] *)
Definition set_size (values : list field) : nat :=
  List.length (remove_dups values).

(** [showAlertDetails(threatType)] once [api("/alerts")] has resolved to
    [allAlerts]. *)
Definition showAlertDetails (threatType : string) (allAlerts : list alert) : modal :=
  let filtered := List.filter (fun a => strict_eq (threat_label a) threatType) allAlerts in
  let icon := if String.eqb threatType "Attack"
              then "fa-shield-virus" else "fa-triangle-exclamation" in
  let color := if String.eqb threatType "Attack" then "text-red-400" else "text-orange-400" in
  let total := List.length filtered in
  let uniqueIPs := set_size (source_ip <$> filtered) in
  Modal icon color total uniqueIPs
        (if (List.length filtered =? 0)%nat
         then NoneFound (toLowerCase threatType)
         else Rows filtered)
        false.

Definition nameless (id : string) : alert :=
  Alert id Absent (Str "Attack") None (Str "blocked") "2024-01-01T00:00:00Z".

End AlertDetails.

(* ===================================================================== *)
(** ** The fetch helper: [api] *)
(* ===================================================================== *)

Module Api.
Import Http.

(** How [fetch] and [res.json()] end: the request never completes, or a
    response arrives with a status, a status text, and a body that either
    parses to an object or makes [res.json()] reject with a message. *)
Inductive fetched :=
| NetworkError (message : string)
| Response (status : Z) (statusText : string) (body : string + object).

(** [res.ok]: the status is in the range 200-299. *)
Definition ok (status : Z) : bool := (200 <=? status)%Z && (status <=? 299)%Z.

(** [`${res.status} ${res.statusText}`] *)
Definition status_line (status : Z) (statusText : string) : string :=
  String.append (pretty status) (String.append " " statusText).

Definition api (f : fetched) : reply :=
  match f with
  | NetworkError m => Rejected m
  | Response status statusText body =>
      if negb (ok status) then Rejected (status_line status statusText)
      else match body with
           | inr o => Body o
           | inl m => Rejected m
           end
  end.

End Api.

(* ===================================================================== *)
(** ** The logs page: its own [refreshLogs] *)
(* ===================================================================== *)

(** The script of the logs page (the second script of
    frontend/sidebar-toggle.js): it shows fifty rows, the number of logs,
    and a failure row. *)
Module LogsPage.
Import JsString LogsTable.

Definition row_of (l : gmap string value) : row :=
  Row (or (or (or (get l "source_ip") (get l "Source IP")) (get l "Src IP")) (Str "—"))
      (or (or (or (get l "bytes_sent") (get l "Total Fwd Packets"))
              (get l "Fwd Packet Length Total")) (Num 0))
      (or (or (or (get l "bytes_received") (get l "Total Backward Packets"))
              (get l "Bwd Packet Length Total")) (Num 0))
      (or (or (or (get l "Flow Duration") (get l "duration")) (get l "flow_duration")) (Num 0))
      (or (or (or (get l "Total Fwd Packets") (get l "packets"))
              (get l "total_fwd_packets")) (Num 0)).

(** Content of [$logsBody]. *)
Inductive body :=
| NoLogsYet
| FailedToLoad
| Rows (rows : list row).

Record page := Page {
  logsCount : nat;              (* [$logsCount.textContent] *)
  logsBody : body;
}.

(** How [await api("/logs")] settles. *)
Inductive loaded :=
| Failed
| Logs (logs : list (gmap string value)).

Definition refreshLogs (r : loaded) (p : page) : page :=
  match r with
  | Logs logs =>
      let p := Page (List.length logs) (logsBody p) in
      if (List.length logs =? 0)%nat then Page (logsCount p) NoLogsYet
      else
        let recent := reverse (slice_last 50 logs) in
        Page (logsCount p) (Rows (row_of <$> recent))
  | Failed => Page (logsCount p) FailedToLoad
  end.

End LogsPage.

(* ===================================================================== *)
(** * Properties *)
(* ===================================================================== *)

Module JsStringFacts.
Import JsString.

Lemma includes_empty_needle hay : includes hay "" = true.
Proof. destruct hay; reflexivity. Qed.

Lemma includes_empty_hay needle : includes "" needle = true <-> needle = "".
Proof.
  destruct needle as [|c n]; simpl; split; intros H; try done.
Qed.

Lemma toLowerCase_empty s : toLowerCase s = "" <-> s = "".
Proof. destruct s; simpl; split; intros H; congruence. Qed.

Lemma truthy_false s : truthy s = false <-> s = "".
Proof. destruct s; simpl; split; intros H; congruence. Qed.

Lemma or_empty_lacking v :
  or_empty v = "" <-> v = Absent \/ v = Null \/ v = Str "".
Proof.
  destruct v as [| |s]; simpl; split; intros H; auto.
  - subst. auto.
  - destruct H as [H|[H|H]]; congruence.
Qed.

Example parseInt_digits : parseInt "250" = Int 250.
Proof. reflexivity. Qed.

Example parseInt_leading_digits : parseInt "  -12abc" = Int (-12).
Proof. reflexivity. Qed.

Example parseInt_hex : parseInt "0x1F" = Int 31.
Proof. reflexivity. Qed.

Example parseInt_letters : parseInt "abc" = NaN.
Proof. reflexivity. Qed.

Example trim_both_ends : trim "  10.0 " = "10.0".
Proof. reflexivity. Qed.

Example includes_inside : includes "192.168.0.7" "168.0" = true.
Proof. reflexivity. Qed.

End JsStringFacts.

Module FilterFacts.
Import JsString JsStringFacts Filter.

Lemma filter_all_true {A} (l : list A) : List.filter (fun _ => true) l = l.
Proof. induction l as [|x l IH]; simpl; congruence. Qed.

Lemma filter_filter {A} (f g : A -> bool) (l : list A) :
  List.filter g (List.filter f l) = List.filter (fun x => f x && g x) l.
Proof.
  induction l as [|x l IH]; simpl; [done|].
  destruct (f x); simpl; [destruct (g x)|]; congruence.
Qed.

Lemma filter_ext_eq {A} (f g : A -> bool) (l : list A) :
  (forall x, f x = g x) -> List.filter f l = List.filter g l.
Proof. intros H. induction l as [|x l IH]; simpl; [done|]. rewrite H, IH. done. Qed.

Lemma filter_sublist {A} (f : A -> bool) (l : list A) : sublist (List.filter f l) l.
Proof.
  induction l as [|x l IH]; simpl; [constructor|].
  destruct (f x); by constructor.
Qed.

(** The two conditional passes are one pass with the conjunction of the
    two predicates. *)
Lemma filtered_conjunction threat ip R :
  filtered threat ip R =
  List.filter (fun r => label_matches threat r && ip_matches ip r) R.
Proof.
  unfold filtered, label_matches, ip_matches.
  destruct (String.eqb threat "all") eqn:Hall; simpl;
    destruct (truthy (toLowerCase (trim ip))) eqn:Hip.
  - done.
  - apply truthy_false in Hip. rewrite Hip.
    symmetry. erewrite filter_ext_eq; [apply filter_all_true|].
    intros r. apply includes_empty_needle.
  - apply filter_filter.
  - apply truthy_false in Hip. rewrite Hip.
    apply filter_ext_eq. intros r.
    rewrite includes_empty_needle. by rewrite andb_true_r.
Qed.

Lemma applyFilters_count R d :
  resultsCount (fst (applyFilters R d)) =
  List.length (filtered (filterThreat d) (filterIP d) R).
Proof.
  unfold applyFilters.
  destruct (List.length _ =? 0)%nat; simpl; [done|].
  destruct (mapM render _); done.
Qed.

(** C5, as the specification words it, fails: a filter text made of one
    space is no substring of "10.0.0.1", yet the view keeps the record,
    because the text is trimmed first. *)
Lemma C5_untrimmed_filter_counterexample :
  view "all" " " [plain] = ([plain], 1%nat) /\
  spec_view "all" " " [plain] = ([], 0%nat) /\
  view "all" " " [plain] <> spec_view "all" " " [plain].
Proof. repeat split; try reflexivity. discriminate. Qed.

(** C5 (amended): for every result set [R] and filter pair, the view is
    exactly the subsequence of [R] whose elements satisfy both
    predicates, in the order of [R], together with its length; the label
    predicate is "all" or exact equality, and the IP predicate is
    containment of the trimmed, lower-cased filter text in the
    lower-cased source IP, which an empty (or all-blank) text always
    satisfies. *)
Theorem C5_view_is_conjunctive_filter threatLabel ipSubstring R :
  let keep r := label_matches threatLabel r && ip_matches ipSubstring r in
  view threatLabel ipSubstring R = (List.filter keep R, List.length (List.filter keep R)) /\
  sublist (fst (view threatLabel ipSubstring R)) R /\
  (forall r, label_matches "all" r = true) /\
  (forall r, threatLabel <> "all" ->
     label_matches threatLabel r = true <-> threat_label r = Str threatLabel) /\
  (forall r, trim ipSubstring = "" -> ip_matches ipSubstring r = true).
Proof.
  intros keep. split; [|split; [|split; [|split]]].
  - unfold view. rewrite applyFilters_count. simpl.
    by rewrite filtered_conjunction.
  - unfold view. simpl. rewrite filtered_conjunction. apply filter_sublist.
  - intros r. reflexivity.
  - intros r Hne. unfold label_matches.
    apply String.eqb_neq in Hne. rewrite Hne. simpl. split.
    + destruct (threat_label r) as [| |t]; simpl; try done.
      intros H. apply String.eqb_eq in H. by subst.
    + intros ->. simpl. apply String.eqb_refl.
  - intros r H. unfold ip_matches. rewrite H. apply includes_empty_needle.
Qed.

Lemma C5_view_is_conjunctive_filter_witness :
  view "Attack" " 10.0 " [plain; lacking_ip] = ([], 0%nat) /\
  label_matches "Attack" lacking_ip = true /\
  ip_matches "  " plain = true.
Proof.
  pose proof (C5_view_is_conjunctive_filter "Attack" " 10.0 " [plain; lacking_ip])
    as (Hview & _ & _ & Hlabel & _).
  pose proof (C5_view_is_conjunctive_filter "all" "  " [plain])
    as (_ & _ & _ & _ & Hblank).
  split; [rewrite Hview; reflexivity|]. split.
  - apply Hlabel; [discriminate | reflexivity].
  - apply Hblank. reflexivity.
Defined.

(** C8: when the filtered view is empty, [$detectBody] holds a guidance
    message that tells an empty result set ("No logs to analyze") from a
    non-empty one the filters exclude entirely ("No results match your
    filters"), and the two messages differ. *)
Theorem C8_empty_view_reason R d :
  filtered (filterThreat d) (filterIP d) R = [] ->
  (R = [] -> detectBody (fst (applyFilters R d)) = Message "No logs to analyze") /\
  (R <> [] -> detectBody (fst (applyFilters R d)) = Message "No results match your filters") /\
  Message "No logs to analyze" <> Message "No results match your filters" /\
  resultsCount (fst (applyFilters R d)) = 0%nat.
Proof.
  intros H. unfold applyFilters. rewrite H. simpl.
  repeat split; try discriminate.
  - by intros ->.
  - intros HR. destruct R; done.
Qed.

Lemma C8_empty_view_reason_witness :
  detectBody (fst (applyFilters [plain] (Dom "Attack" "" 0 (Message ""))))
  = Message "No results match your filters".
Proof.
  apply (C8_empty_view_reason [plain] (Dom "Attack" "" 0 (Message ""))).
  - reflexivity.
  - discriminate.
Defined.

Lemma In_filtered threat ip R r :
  r ∈ filtered threat ip R <->
  r ∈ R /\ label_matches threat r = true /\ ip_matches ip r = true.
Proof.
  rewrite filtered_conjunction, !list_elem_of_In, filter_In, andb_true_iff.
  done.
Qed.

(** C10: a record whose source IP is missing, null or the empty string
    is treated as having the empty IP: it is in the view if and only if
    it is in the result set, its label passes, and the trimmed filter
    text is empty; so a non-blank text excludes it and a label-only
    filter keeps it. *)
Theorem C10_record_without_ip threatLabel ipSubstring R r :
  source_ip r = Absent \/ source_ip r = Null \/ source_ip r = Str "" ->
  (r ∈ filtered threatLabel ipSubstring R <->
     r ∈ R /\ label_matches threatLabel r = true /\ trim ipSubstring = "") /\
  (trim ipSubstring <> "" -> r ∉ filtered threatLabel ipSubstring R) /\
  (r ∈ R -> label_matches threatLabel r = true -> r ∈ filtered threatLabel "" R).
Proof.
  intros Hip. apply or_empty_lacking in Hip.
  assert (Hm : forall ip, ip_matches ip r = true <-> trim ip = "").
  { intros ip. unfold ip_matches. rewrite Hip.
    change (toLowerCase "") with "".
    rewrite includes_empty_hay. apply toLowerCase_empty. }
  split; [|split].
  - rewrite In_filtered, Hm. tauto.
  - intros Hne H. apply In_filtered in H. apply Hne, Hm. tauto.
  - intros H1 H2. apply In_filtered. repeat split; try done. by apply Hm.
Qed.

Lemma C10_record_without_ip_witness :
  (lacking_ip ∉ filtered "all" "10." [plain; lacking_ip]) /\
  (lacking_ip ∈ filtered "Attack" "" [plain; lacking_ip]).
Proof.
  pose proof (C10_record_without_ip "all" "10." [plain; lacking_ip] lacking_ip
                (or_introl eq_refl)) as (_ & Hout & _).
  pose proof (C10_record_without_ip "Attack" "" [plain; lacking_ip] lacking_ip
                (or_introl eq_refl)) as (_ & _ & Hin).
  split.
  - apply Hout. discriminate.
  - apply Hin; [|reflexivity]. apply list_elem_of_In. simpl. auto.
Defined.

End FilterFacts.

Module ReconcilerFacts.
Import JsString Alerts Reconciler.

(** *** The eviction loop *)

Lemma removelast_take (l : list node) :
  removelast l = take (List.length l - 1) l.
Proof. rewrite removelast_firstn_len. f_equal. lia. Qed.

Lemma evict_loop_take fuel (l : list node) :
  List.length l - 51 <= fuel -> evict_loop fuel l = take 51 l.
Proof.
  revert l. induction fuel as [|fuel IH]; intros l Hfuel; simpl.
  - rewrite take_ge; [done | lia].
  - destruct (Nat.ltb_spec 51 (List.length l)) as [Hlt|Hle].
    + rewrite IH.
      * rewrite removelast_take, take_take. f_equal. lia.
      * rewrite removelast_take, length_take. lia.
    + rewrite take_ge; [done | lia].
Qed.

(** The loop stops, leaving the first 51 children. *)
Lemma evict_take (l : list node) : evict l = take 51 l.
Proof. apply evict_loop_take. lia. Qed.

Lemma omap_sublist {A B} (f : A -> option B) (l1 l2 : list A) :
  sublist l1 l2 -> sublist (omap f l1) (omap f l2).
Proof.
  induction 1 as [|x l1 l2 _ IH|x l1 l2 _ IH]; simpl.
  - constructor.
  - destruct (f x); [by constructor | done].
  - destruct (f x); [by constructor | done].
Qed.

Lemma feed_after_admission a s ids n :
  sublist (feed (State ids (evict (Item a :: children s)) n)) (a :: feed s).
Proof.
  unfold feed. simpl. rewrite evict_take.
  apply (omap_sublist item_alert (take 51 (Item a :: children s)) (Item a :: children s)).
  apply sublist_take.
Qed.

(** *** Seen ids *)

Lemma forEach_body_known a s :
  knownAlertIds (fst (forEach_body a s)) = {[log_id a]} ∪ knownAlertIds s.
Proof.
  unfold forEach_body. case_decide; simpl; [set_solver | done].
Qed.

Lemma forEach_known alerts s id :
  id ∈ knownAlertIds (fst (forEach alerts s)) <->
  id ∈ knownAlertIds s \/ id ∈ (log_id <$> alerts).
Proof.
  revert s. induction alerts as [|a rest IH]; intros s; simpl.
  - set_solver.
  - pose proof (forEach_body_known a s) as Hk.
    destruct (forEach_body a s) as [s1 created]. simpl in Hk.
    specialize (IH s1). destruct (forEach rest s1) as [s2 fresh].
    simpl in *. rewrite IH, Hk. set_solver.
Qed.

Lemma reconcile_known alerts s id :
  id ∈ knownAlertIds (fst (reconcile alerts s)) <->
  id ∈ knownAlertIds s \/ id ∈ (log_id <$> alerts).
Proof.
  unfold reconcile. destruct alerts as [|a rest].
  - simpl. set_solver.
  - change (List.length (a :: rest) =? 0)%nat with false. cbv iota.
    by rewrite forEach_known.
Qed.

Lemma polls_keep_known Ls s id :
  id ∈ knownAlertIds s -> id ∈ knownAlertIds (run (Poll <$> Ls) s).
Proof.
  revert s. induction Ls as [|L Ls IH]; intros s H; simpl; [done|].
  apply IH. unfold apply. apply reconcile_known. by left.
Qed.

(** An alert whose id is already seen creates no item. *)
Lemma forEach_creates_unseen alerts s b :
  b ∈ snd (forEach alerts s) -> log_id b ∉ knownAlertIds s.
Proof.
  revert s. induction alerts as [|a rest IH]; intros s; simpl.
  - by intros ?%elem_of_nil.
  - pose proof (forEach_body_known a s) as Hk.
    unfold forEach_body in *. case_decide as Hin; simpl in *.
    + specialize (IH s). destruct (forEach rest s) as [s2 fresh]. simpl in *.
      done.
    + match goal with |- context [forEach rest ?s1] =>
        specialize (IH s1); destruct (forEach rest s1) as [s2 fresh] end.
      simpl in *. intros [->|Hb]%elem_of_cons; [done|].
      apply IH in Hb. set_solver.
Qed.

Lemma reconcile_creates_unseen alerts s b :
  b ∈ snd (reconcile alerts s) -> log_id b ∉ knownAlertIds s.
Proof.
  unfold reconcile. destruct (List.length alerts =? 0)%nat; simpl.
  - by intros ?%elem_of_nil.
  - intros H. by apply forEach_creates_unseen in H.
Qed.

(** A pass over alerts that are all seen changes nothing. *)
Lemma forEach_all_seen alerts s :
  (forall a, a ∈ alerts -> log_id a ∈ knownAlertIds s) ->
  forEach alerts s = (s, []).
Proof.
  induction alerts as [|a rest IH]; intros H; simpl; [done|].
  unfold forEach_body. rewrite decide_True by (apply H; left).
  rewrite IH; [done|]. intros b Hb. apply H. by right.
Qed.

(** *** The feed holds seen ids, each once *)

Lemma forEach_body_feed_ok a s : feed_ok s -> feed_ok (fst (forEach_body a s)).
Proof.
  intros [Hnd Hsub]. unfold forEach_body. case_decide as Hin; simpl; [done|].
  pose proof (feed_after_admission a s ({[log_id a]} ∪ knownAlertIds s) (alertCount s)) as Hsl.
  apply (fmap_sublist log_id) in Hsl.
  assert (Hnd' : NoDup (log_id <$> (a :: feed s))).
  { simpl. constructor; [|done]. intros Hx. apply Hin, Hsub, Hx. }
  split.
  - exact (sublist_NoDup _ _ Hnd' Hsl).
  - intros id Hid. apply (sublist_subseteq _ _ Hsl) in Hid.
    simpl in Hid. apply elem_of_cons in Hid as [->|Hid]; [set_solver|].
    apply Hsub in Hid. set_solver.
Qed.

Lemma forEach_feed_ok alerts s : feed_ok s -> feed_ok (fst (forEach alerts s)).
Proof.
  revert s. induction alerts as [|a rest IH]; intros s H; simpl; [done|].
  pose proof (forEach_body_feed_ok a s H) as H1.
  destruct (forEach_body a s) as [s1 created].
  specialize (IH s1 H1). by destruct (forEach rest s1).
Qed.

Lemma reconcile_feed_ok alerts s : feed_ok s -> feed_ok (fst (reconcile alerts s)).
Proof.
  intros H. unfold reconcile. destruct (List.length alerts =? 0)%nat.
  - exact H.
  - by apply forEach_feed_ok.
Qed.

Lemma feed_replicate n ids c :
  feed (State ids (replicate n Placeholder) c) = [].
Proof. unfold feed. simpl. induction n; simpl; done. Qed.

Lemma initial_feed_ok n : feed_ok (initial n).
Proof.
  unfold feed_ok, feed_ids, initial. rewrite feed_replicate. simpl.
  split; [constructor | by intros id ?%elem_of_nil].
Qed.

Lemma run_feed_ok ops s : feed_ok s -> feed_ok (run ops s).
Proof.
  revert s. induction ops as [|o ops IH]; intros s H; simpl; [done|].
  apply IH. destruct o as [alerts|]; simpl.
  - by apply reconcile_feed_ok.
  - split; [constructor | by intros id ?%elem_of_nil].
Qed.

Lemma entries_le_1 id s : NoDup (feed_ids s) -> entries id s <= 1.
Proof.
  unfold entries, feed_ids. generalize (feed s) as l.
  induction l as [|a l IH]; simpl; intros Hnd; [lia|].
  apply NoDup_cons in Hnd as [Hnotin Hnd].
  destruct (String.eqb_spec (log_id a) id) as [Heq|Hne]; simpl; [|by apply IH].
  assert (List.filter (fun a0 => String.eqb (log_id a0) id) l = []) as ->; [|simpl; lia].
  clear IH Hnd. induction l as [|b l IH]; simpl; [done|].
  destruct (String.eqb_spec (log_id b) id) as [Hb|Hb].
  - exfalso. apply Hnotin. simpl. rewrite Heq, <- Hb. left.
  - apply IH. intros Hx. apply Hnotin. simpl. by right.
Qed.

Lemma forEach_alertCount alerts s :
  alertCount (fst (forEach alerts s)) = alertCount s.
Proof.
  revert s. induction alerts as [|a rest IH]; intros s; simpl; [done|].
  unfold forEach_body. case_decide; simpl.
  - specialize (IH s). by destruct (forEach rest s).
  - match goal with |- context [forEach rest ?s1] =>
      specialize (IH s1); destruct (forEach rest s1) end.
    done.
Qed.

Lemma reconcile_alertCount alerts s :
  alertCount (fst (reconcile alerts s)) = List.length alerts.
Proof.
  unfold reconcile. destruct (List.length alerts =? 0)%nat; simpl; [done|].
  by rewrite forEach_alertCount.
Qed.

(** Reconciling a list whose ids are all seen, on a page that already
    shows its length, changes nothing and creates no item. *)
Lemma reconcile_all_seen alerts s :
  alertCount s = List.length alerts ->
  (forall a, a ∈ alerts -> log_id a ∈ knownAlertIds s) ->
  reconcile alerts s = (s, []).
Proof.
  intros Hc Hseen. unfold reconcile. rewrite <- Hc.
  assert (State (knownAlertIds s) (children s) (alertCount s) = s) as ->
    by by destruct s.
  destruct (alertCount s =? 0)%nat; [done|].
  by apply forEach_all_seen.
Qed.

(** C3: on any page state reached by polls and clears, reconciling a
    list [L] and then [L] again takes in no alert the second time and
    leaves the state as it was; and the rendered feed never holds two
    entries with the same [log_id]. *)
Theorem C3_reconcile_idempotent placeholders ops L :
  let s := run ops (initial placeholders) in
  let s1 := fst (reconcile L s) in
  reconcile L s1 = (s1, []) /\
  (forall id, entries id s1 <= 1) /\
  (forall id, entries id s <= 1).
Proof.
  intros s s1.
  assert (Hs : feed_ok s) by apply run_feed_ok, initial_feed_ok.
  assert (Hs1 : feed_ok s1) by by apply reconcile_feed_ok.
  split; [|split].
  - apply reconcile_all_seen.
    + apply reconcile_alertCount.
    + intros a Ha. apply reconcile_known. right. by apply list_elem_of_fmap_2.
  - intros id. apply entries_le_1, Hs1.
  - intros id. apply entries_le_1, Hs.
Qed.

(** Polling twice with one alert of id "a" shows one row for it. *)
Example one_row_for_one_alert :
  feed_ids (run [Poll (samples 1); Poll (samples 1)] (initial 1)) = ["a"].
Proof. vm_compute. reflexivity. Qed.

(** *** The bound on the feed *)

Lemma forEach_body_children_bound a s bound :
  51 <= bound -> List.length (children s) <= bound ->
  List.length (children (fst (forEach_body a s))) <= bound.
Proof.
  intros Hb Hs. unfold forEach_body. case_decide; simpl; [done|].
  rewrite evict_take, length_take. lia.
Qed.

Lemma forEach_children_bound alerts s bound :
  51 <= bound -> List.length (children s) <= bound ->
  List.length (children (fst (forEach alerts s))) <= bound.
Proof.
  intros Hb. revert s. induction alerts as [|a rest IH]; intros s Hs; simpl; [done|].
  pose proof (forEach_body_children_bound a s bound Hb Hs) as H1.
  destruct (forEach_body a s) as [s1 created].
  specialize (IH s1 H1). by destruct (forEach rest s1).
Qed.

Lemma feed_length_le_children s : List.length (feed s) <= List.length (children s).
Proof.
  unfold feed. induction (children s) as [|n l IH]; [done|].
  change (omap item_alert (n :: l))
    with (match item_alert n with
          | Some a => a :: omap item_alert l
          | None => omap item_alert l
          end).
  destruct (item_alert n); cbn [List.length]; lia.
Qed.

(** What the loop does guarantee: a page loaded with at most 51 static
    children never shows more than 51 alerts. *)
Lemma feed_at_most_51 placeholders ops :
  placeholders <= 51 ->
  List.length (feed (run ops (initial placeholders))) <= 51.
Proof.
  intros Hp. etrans; [apply feed_length_le_children|].
  assert (H0 : List.length (children (initial placeholders)) <= 51)
    by (simpl; by rewrite length_replicate).
  revert H0. generalize (initial placeholders) as s.
  induction ops as [|o ops IH]; intros s Hs; simpl; [done|].
  apply IH. destruct o as [alerts|]; simpl; [|lia].
  unfold reconcile. destruct (List.length alerts =? 0)%nat; simpl; [done|].
  by apply forEach_children_bound.
Qed.

(** C4 fails on the code: after a clear, one poll returning 51 alerts
    with different ids leaves 51 entries in the feed.  The loop compares
    the number of children with 51, and the first child it removes is
    the placeholder item, which sits at the tail. *)
Theorem C4_feed_holds_51_entries :
  let s := run [Clear; Poll (samples 51)] (initial 1) in
  List.length (feed s) = 51 /\ List.length (children s) = 51 /\
  ~ List.length (feed s) <= 50.
Proof. vm_compute. repeat split; lia. Qed.

(** *** Eviction and the seen set *)

(** An admission that evicts still only adds to the seen set. *)
Lemma eviction_keeps_known a s id :
  51 <= List.length (children s) ->
  id ∈ knownAlertIds s -> id ∈ knownAlertIds (fst (forEach_body a s)).
Proof. intros _ H. rewrite forEach_body_known. set_solver. Qed.

(** With 52 new alerts the item of the first one is removed again, and
    polling the same list once more does not bring it back. *)
Example evicted_not_created_again :
  let s := fst (reconcile (samples 52) (clear (initial 1))) in
  bool_decide (log_id (sample 1) ∈ feed_ids s) = false /\
  bool_decide (log_id (sample 1) ∈ knownAlertIds s) = true /\
  log_id <$> snd (reconcile (samples 52) s) = [].
Proof. vm_compute. done. Qed.

(** C9: eviction leaves the seen set alone.  Once an alert has been
    through a reconciliation its id stays in [knownAlertIds] across every
    later poll, whether or not its item is still in the list, so no later
    reconciliation creates an item for an alert with that id. *)
Theorem C9_evicted_alert_stays_seen s L Ls L' a :
  a ∈ L ->
  let s' := run (Poll <$> Ls) (fst (reconcile L s)) in
  log_id a ∈ knownAlertIds s' /\
  (forall b, log_id b = log_id a -> b ∉ snd (reconcile L' s')) /\
  (forall id, id ∈ knownAlertIds s -> id ∈ knownAlertIds s').
Proof.
  intros Ha s'.
  assert (Hk : log_id a ∈ knownAlertIds s').
  { apply polls_keep_known, reconcile_known. right. by apply list_elem_of_fmap_2. }
  split; [exact Hk | split].
  - intros b Hb Hnew. apply reconcile_creates_unseen in Hnew.
    apply Hnew. by rewrite Hb.
  - intros id Hid. apply polls_keep_known, reconcile_known. by left.
Qed.

Lemma C9_evicted_alert_stays_seen_witness :
  log_id (sample 1) ∈
    knownAlertIds (run (Poll <$> [samples 3])
                       (fst (reconcile (samples 52) (clear (initial 1))))).
Proof.
  refine (proj1 (C9_evicted_alert_stays_seen (clear (initial 1)) (samples 52)
                   [samples 3] (samples 52) (sample 1) _)).
  unfold samples. simpl. left.
Defined.

End ReconcilerFacts.

Module AggregatorFacts.
Import JsString Alerts Aggregator.

(** *** [Math.ceil] of a quotient of lengths *)

Lemma ceil_div_upper n d : 0 < d -> n <= ceil_div n d * d.
Proof.
  intros Hd. unfold ceil_div.
  pose proof (Nat.div_mod_eq (n + d - 1) d) as E.
  pose proof (Nat.mod_upper_bound (n + d - 1) d) as U. nia.
Qed.

Lemma ceil_div_lower n d : 0 < d -> 0 < n -> (ceil_div n d - 1) * d < n.
Proof.
  intros Hd Hn. unfold ceil_div.
  pose proof (Nat.div_mod_eq (n + d - 1) d) as E.
  pose proof (Nat.mod_upper_bound (n + d - 1) d) as U. nia.
Qed.

Lemma ceil_div_pos n d : 0 < d -> 0 < n -> 0 < ceil_div n d.
Proof.
  intros Hd Hn. pose proof (ceil_div_upper n d Hd).
  destruct (ceil_div n d); simpl in *; lia.
Qed.

Section Runtime.
Variable time_value : string -> Z.
Variable hour_minute : Z -> string.

Local Abbreviation time_of := (time_of time_value).
Local Abbreviation insert := (insert time_value).
Local Abbreviation sort := (sort time_value).
Local Abbreviation ascending := (ascending time_value).
Local Abbreviation bucketSize := (bucketSize time_value).
Local Abbreviation bucket_step := (bucket_step time_value hour_minute).
Local Abbreviation build_timeline := (build_timeline time_value hour_minute).
Local Abbreviation updateCharts := (updateCharts time_value hour_minute).
Local Abbreviation bucket_label := (bucket_label time_value hour_minute).
Local Abbreviation spec_timeline := (spec_timeline time_value hour_minute).

(** *** The sort *)

Lemma insert_perm a l : insert a l ≡ₚ a :: l.
Proof.
  induction l as [|b l IH]; simpl; [done|].
  destruct (time_of a - time_of b <=? 0)%Z; [done|].
  rewrite IH. apply Permutation_swap.
Qed.

Lemma sort_perm l : sort l ≡ₚ l.
Proof.
  induction l as [|a l IH]; simpl; [done|].
  by rewrite insert_perm, IH.
Qed.

Lemma sort_length l : List.length (sort l) = List.length l.
Proof. apply Permutation_length, sort_perm. Qed.

Lemma insert_ascending a l : ascending l -> ascending (insert a l).
Proof.
  unfold Aggregator.ascending.
  induction 1 as [|b l Hs IH Hhd]; simpl.
  - repeat constructor.
  - destruct (Z.leb_spec (time_of a - time_of b) 0) as [Hle|Hgt].
    + constructor; [by constructor|]. constructor. lia.
    + constructor; [exact IH|].
      destruct l as [|c l]; simpl.
      * constructor. lia.
      * inversion Hhd; subst.
        destruct (time_of a - time_of c <=? 0)%Z; constructor; lia.
Qed.

Lemma sort_ascending l : ascending (sort l).
Proof.
  induction l as [|a l IH]; simpl.
  - constructor.
  - by apply insert_ascending.
Qed.

(** The sort is stable: alerts already in ascending order, equal time
    values included, keep their places. *)
Lemma sort_ascending_id l : ascending l -> sort l = l.
Proof.
  unfold Aggregator.ascending.
  induction 1 as [|a l Hs IH Hhd]; simpl; [done|].
  rewrite IH. destruct Hhd as [|b l Hab]; simpl; [done|].
  destruct (Z.leb_spec (time_of a - time_of b) 0); [done | lia].
Qed.

(** *** The loop and the chunks *)

Lemma slice_bucket (l : list alert) size i :
  slice l (i * size) ((i + 1) * size) = take size (drop (i * size) l).
Proof. unfold slice. f_equal. lia. Qed.

Lemma loop_emits l size js acc :
  foldl (bucket_step l size) acc js =
  Timeline (labels acc ++ (bucket_label <$> emitted l size js))
           (attackData acc ++ (tally "Attack" <$> emitted l size js))
           (suspData acc ++ (tally "Suspicious" <$> emitted l size js)).
Proof.
  revert acc. induction js as [|j js IH]; intros acc; simpl.
  - rewrite !app_nil_r. by destruct acc.
  - rewrite IH. unfold bucket_step at 1 2 3, emitted. simpl.
    rewrite slice_bucket.
    destruct (take size (drop (j * size) l)) as [|x chunk] eqn:E; simpl.
    + done.
    + by rewrite <- !app_assoc.
Qed.

Lemma chunks_fuel_nil fuel size : chunks_fuel fuel size [] = [].
Proof. by destruct fuel. Qed.

Lemma emitted_cons l size j js :
  emitted l size (j :: js) =
  match take size (drop (j * size) l) with
  | [] => emitted l size js
  | chunk => chunk :: emitted l size js
  end.
Proof.
  unfold emitted. simpl.
  by destruct (take size (drop (j * size) l)).
Qed.

Lemma emitted_chunks l size k i fuel :
  0 < size ->
  List.length (drop (i * size) l) <= k * size ->
  List.length (drop (i * size) l) <= fuel ->
  emitted l size (seq i k) = chunks_fuel fuel size (drop (i * size) l).
Proof.
  intros Hsize. revert i fuel.
  induction k as [|k IH]; intros i fuel Hk Hfuel.
  - destruct (drop (i * size) l); [|simpl in Hk; lia].
    by rewrite chunks_fuel_nil.
  - change (seq i (S k)) with (i :: seq (S i) k). rewrite emitted_cons.
    assert (Hnext : drop (S i * size) l = drop size (drop (i * size) l)).
    { rewrite drop_drop. f_equal. lia. }
    destruct (drop (i * size) l) as [|x d] eqn:Ed.
    + rewrite take_nil, chunks_fuel_nil.
      rewrite (IH (S i) 0); rewrite Hnext, drop_nil; simpl; try lia.
      reflexivity.
    + destruct fuel as [|fuel]; [simpl in Hfuel; lia|].
      destruct size as [|size]; [lia|].
      rewrite (IH (S i) fuel).
      * by rewrite Hnext.
      * rewrite Hnext, length_drop. simpl in *. lia.
      * rewrite Hnext, length_drop. simpl in *. lia.
Qed.

Lemma chunks_fuel_concat fuel size l :
  0 < size -> List.length l <= fuel ->
  List.concat (chunks_fuel fuel size l) = l /\
  Forall (fun c => 0 < List.length c <= size) (chunks_fuel fuel size l).
Proof.
  intros Hsize. revert l. induction fuel as [|fuel IH]; intros l Hl.
  - destruct l; [by split | simpl in Hl; lia].
  - destruct l as [|x l]; [by split|].
    destruct (IH (drop size (x :: l))) as [Hc Hf].
    { rewrite length_drop. simpl in *. lia. }
    split.
    + change (List.concat (take size (x :: l) :: chunks_fuel fuel size (drop size (x :: l)))
              = x :: l).
      simpl List.concat. rewrite Hc. apply take_drop.
    + change (Forall (fun c => 0 < List.length c <= size)
                (take size (x :: l) :: chunks_fuel fuel size (drop size (x :: l)))).
      constructor; [|exact Hf].
      rewrite length_take. simpl. lia.
Qed.

(** The loop builds exactly the timeline of the contiguous chunks. *)
Lemma build_timeline_chunks alerts :
  alerts <> [] -> build_timeline alerts = spec_timeline alerts.
Proof.
  intros Hne. unfold Aggregator.build_timeline, Aggregator.spec_timeline.
  assert (Hn : 0 < List.length alerts) by (destruct alerts; simpl; [done | lia]).
  assert (Hbc : 0 < bucketCount alerts).
  { unfold Aggregator.bucketCount.
    pose proof (ceil_div_pos (List.length alerts) 5). lia. }
  assert (Hbs : 0 < bucketSize alerts).
  { unfold Aggregator.bucketSize. apply ceil_div_pos; [done|]. by rewrite sort_length. }
  assert (Hsize : ceil_div (List.length alerts)
                    (Nat.min 10 (ceil_div (List.length alerts) 5)) = bucketSize alerts).
  { unfold Aggregator.bucketSize, Aggregator.bucketCount. by rewrite sort_length. }
  assert (Hcover : List.length (sort alerts) <= bucketCount alerts * bucketSize alerts).
  { unfold Aggregator.bucketSize.
    pose proof (ceil_div_upper (List.length (sort alerts)) (bucketCount alerts) Hbc).
    lia. }
  rewrite loop_emits. cbn [labels attackData suspData app].
  rewrite (emitted_chunks (sort alerts) (bucketSize alerts) (bucketCount alerts) 0
             (List.length (sort alerts)) Hbs);
    change (0 * bucketSize alerts) with 0; rewrite ?drop_0; try done.
  destruct (Nat.eqb_spec (List.length alerts) 0) as [E|_]; [lia|].
  rewrite Hsize. reflexivity.
Qed.

Lemma updateCharts_timeline alerts c t :
  timelineChart c = Some t ->
  timelineChart (updateCharts alerts c) =
  Some (if (0 <? List.length alerts)%nat then build_timeline alerts else t).
Proof.
  intros Ht. unfold Aggregator.updateCharts.
  destruct (threatChart c) as [d|]; cbn [timelineChart threatChart];
    rewrite Ht; by destruct (0 <? List.length alerts)%nat.
Qed.

(** C6 (amended): [updateCharts] sorts the alerts by ascending time
    value, takes [bucketCount = min(10, ceil(n/5))] and
    [bucketSize = ceil(n / bucketCount)], and for [n > 0] sets the
    timeline to one bucket per non-empty contiguous chunk of
    [bucketSize] sorted alerts, labelled with the hour and minute of
    the chunk's first alert next to its Attack and Suspicious tallies;
    the chunks cover the sorted sequence.  For [n = 0] the timeline is
    left as it was.  Seven alerts give [bucketCount = 2]. *)
Theorem C6_timeline_buckets alerts c t :
  timelineChart c = Some t ->
  let n := List.length alerts in
  let sorted := sort alerts in
  sorted ≡ₚ alerts /\ ascending sorted /\
  bucketCount alerts = Nat.min 10 (ceil_div n 5) /\
  (0 < n ->
     bucketSize alerts = ceil_div n (bucketCount alerts) /\
     timelineChart (updateCharts alerts c) = Some (spec_timeline alerts) /\
     List.concat (chunks (bucketSize alerts) sorted) = sorted /\
     Forall (fun chunk => 0 < List.length chunk <= bucketSize alerts)
            (chunks (bucketSize alerts) sorted)) /\
  (n = 0 -> timelineChart (updateCharts alerts c) = Some t) /\
  (n = 7 -> bucketCount alerts = 2).
Proof.
  intros Ht n sorted. subst n sorted.
  split; [apply sort_perm|]. split; [apply sort_ascending|].
  split; [reflexivity|]. split; [|split].
  - intros Hn.
    assert (Hne : alerts <> []) by (intros ->; simpl in Hn; lia).
    assert (Hbs : 0 < bucketSize alerts).
    { unfold Aggregator.bucketSize, Aggregator.bucketCount.
      pose proof (ceil_div_pos (List.length alerts) 5).
      apply ceil_div_pos; [lia|]. by rewrite sort_length. }
    split; [unfold Aggregator.bucketSize; by rewrite sort_length|].
    split.
    + rewrite (updateCharts_timeline alerts c t Ht).
      destruct (Nat.ltb_spec 0 (List.length alerts)); [|lia].
      by rewrite build_timeline_chunks.
    + by apply chunks_fuel_concat.
  - intros Hn. rewrite (updateCharts_timeline alerts c t Ht), Hn. reflexivity.
  - intros Hn. unfold Aggregator.bucketCount. rewrite Hn. reflexivity.
Qed.

End Runtime.

Lemma C6_timeline_buckets_witness :
  bucketCount (replicate 7 an_attack) = 2 /\
  timelineChart (updateCharts same_instant midnight (replicate 7 an_attack) initCharts)
  = Some (Timeline ["12:00 AM"; "12:00 AM"] [4; 3] [0; 0]).
Proof.
  pose proof (C6_timeline_buckets same_instant midnight (replicate 7 an_attack)
                initCharts (Timeline [] [] []) eq_refl) as (_ & _ & _ & Hpos & _ & H7).
  split.
  - apply H7. reflexivity.
  - destruct Hpos as (_ & Hupd & _); [simpl; lia|]. rewrite Hupd. reflexivity.
Defined.

(** C6, as stated, fails for [n = 0]: a poll that returns no alert does
    not empty the timeline; the bucket drawn for an earlier poll stays. *)
Lemma C6_empty_poll_keeps_timeline_counterexample :
  let c := updateCharts same_instant midnight [an_attack] initCharts in
  timelineChart (updateCharts same_instant midnight [] c)
  = Some (Timeline ["12:00 AM"] [1] [0]) /\
  spec_timeline same_instant midnight [] = Timeline [] [] [] /\
  timelineChart (updateCharts same_instant midnight [] c)
  <> Some (spec_timeline same_instant midnight []).
Proof. repeat split; try reflexivity. discriminate. Qed.


End AggregatorFacts.

Module DetectFacts.
Import JsString Http Detect.

(** *** Counting the runs in flight *)

Lemma runs_app ts us : runs (ts ++ us) = runs ts + runs us.
Proof. unfold runs. by rewrite List.filter_app, length_app. Qed.

Lemma runs_delete ts i t :
  ts !! i = Some t ->
  runs ts = runs (delete i ts) + (if is_run t then 1 else 0).
Proof.
  revert i. induction ts as [|u ts IH]; intros [|i] H; simpl in H; try done.
  - injection H as ->. unfold runs. simpl. destruct (is_run t); simpl; lia.
  - specialize (IH i H). unfold runs in *. simpl.
    destruct (is_run u); simpl; lia.
Qed.

Ltac case_split :=
  repeat match goal with
         | |- context [match ?x with _ => _ end] => destruct x eqn:?
         end.

(** Whatever the reply to [/detect], the [finally] block runs. *)
Lemma detect_settled r p :
  let q := try_catch_finally (after_detect r p) in
  detectionInProgress q = false /\ btnLabel q = RunDetection /\
  btnDisabled q = false /\ pending q = pending p /\ sent q = sent p.
Proof. unfold after_detect. case_split; simpl; done. Qed.

(** A failed [/logs/count] runs [catch] and [finally]; a reply sends the
    [/detect] request and parks again, inside the [try] block. *)
Lemma count_settled r entry p :
  let q := try_catch_finally (after_count r entry p) in
  match r with
  | Rejected m =>
      detectionInProgress q = false /\ btnLabel q = RunDetection /\
      btnDisabled q = false /\ pending q = pending p /\ sent q = sent p /\
      dialogs q = dialogs p ++ [DetectionFailed (ApiError m)]
  | Body logCount =>
      detectionInProgress q = detectionInProgress p /\
      pending q = pending p ++ [AwaitDetect] /\
      sent q = sent p ++ [PostDetect (stringify (choose_limit logCount entry))] /\
      dialogs q = dialogs p
  end.
Proof. destruct r; simpl; done. Qed.

(** A click during a run only asks the backend to cancel. *)
Lemma click_running p :
  detectionInProgress p = true ->
  click p = set_pending (pending p ++ [AwaitCancel]) (send PostDetectCancel p).
Proof. intros H. unfold click. by rewrite H. Qed.

(** A click on the idle page starts a run. *)
Lemma click_idle p :
  detectionInProgress p = false ->
  detectionInProgress (click p) = true /\
  pending (click p) = pending p ++ [AwaitCount] /\
  sent (click p) = sent p ++ [GetLogsCount].
Proof. intros H. unfold click. by rewrite H. Qed.

Lemma runs_snoc ts t : runs (ts ++ [t]) = runs ts + (if is_run t then 1 else 0).
Proof. rewrite runs_app. f_equal. unfold runs. simpl. by destruct (is_run t). Qed.

Lemma step_tracks_run p e : flag_tracks_run p -> flag_tracks_run (step p e).
Proof.
  unfold flag_tracks_run, runs_in_flight. fold (runs (pending p)).
  intros Hp. destruct e as [|i r entry|threat ip]; cbn [step].
  - fold (runs (pending (click p))).
    destruct (detectionInProgress p) eqn:Hflag.
    + rewrite (click_running p Hflag). cbn [pending detectionInProgress set_pending send].
      rewrite runs_snoc, Hflag. simpl. lia.
    + destruct (click_idle p Hflag) as (-> & -> & _).
      rewrite runs_snoc. simpl. lia.
  - fold (runs (pending (settle i r entry p))).
    unfold settle. destruct (pending p !! i) as [t|] eqn:Hi; [|exact Hp].
    pose proof (runs_delete _ _ _ Hi) as Hd.
    destruct t; cbn [is_run] in Hd.
    + pose proof (count_settled r entry (set_pending (delete i (pending p)) p)) as Hc.
      cbv zeta in Hc. destruct r as [m|logCount].
      * destruct Hc as (-> & _ & _ & -> & _). cbn [pending set_pending].
        destruct (detectionInProgress p); lia.
      * destruct Hc as (-> & -> & _). cbn [pending detectionInProgress set_pending].
        rewrite runs_snoc. simpl. lia.
    + pose proof (detect_settled r (set_pending (delete i (pending p)) p)) as Hc.
      cbv zeta in Hc. destruct Hc as (-> & _ & _ & -> & _). cbn [pending set_pending].
      destruct (detectionInProgress p); lia.
    + destruct r; cbn [pending detectionInProgress set_pending set_label console_error]; lia.
  - exact Hp.
Qed.

Lemma run_tracks_run es p : flag_tracks_run p -> flag_tracks_run (run es p).
Proof.
  revert p. induction es as [|e es IH]; intros p Hp; simpl; [done|].
  by apply IH, step_tracks_run.
Qed.

Lemma reachable_tracks_run es d : flag_tracks_run (run es (initial d)).
Proof. apply run_tracks_run. reflexivity. Qed.

End DetectFacts.

Module DetectAppFacts.
Import JsString Http DetectApp.

Lemma length_delete_lookup (ts : list task) i t :
  ts !! i = Some t -> List.length ts = S (List.length (delete i ts)).
Proof.
  intros H. rewrite length_delete; [|by eexists].
  apply lookup_lt_Some in H. lia.
Qed.

(** How each [await] of the handler resumes. *)
Lemma settled i t r entry p :
  pending p !! i = Some t ->
  let p0 := set_pending (delete i (pending p)) p in
  let q := settle i r entry p in
  match t, r with
  | AwaitCount, Body logCount =>
      btnDisabled q = btnDisabled p /\
      pending q = pending p0 ++ [AwaitDetect] /\
      sent q = sent p ++ [PostDetect (stringify (choose_limit logCount entry))] /\
      dialogs q = dialogs p
  | AwaitDetect, Body response =>
      btnDisabled q = btnDisabled p /\
      pending q = pending p0 ++ [AwaitRefresh] /\
      sent q = sent p ++ [GetAlerts; GetStats; GetLogsCount]
  | AwaitRefresh, Body _ =>
      btnDisabled q = false /\ btnLabel q = RunDetection /\
      pending q = pending p0 /\ sent q = sent p /\ dialogs q = dialogs p
  | _, Rejected m =>
      btnDisabled q = false /\ btnLabel q = RunDetection /\
      pending q = pending p0 /\ sent q = sent p /\
      dialogs q = dialogs p ++ [DetectionFailed (ApiError m)]
  end.
Proof.
  intros H. unfold settle. rewrite H.
  destruct t, r as [m|o]; simpl; try done.
  by destruct (cancelled o).
Qed.

Lemma app_step_tracks_run p e : disabled_tracks_run p -> disabled_tracks_run (step p e).
Proof.
  unfold disabled_tracks_run, runs_in_flight. intros Hp.
  destruct e as [|i r entry]; cbn [step].
  - unfold click. destruct (btnDisabled p) eqn:Hd; [by rewrite Hd|].
    simpl. rewrite length_app. simpl. lia.
  - destruct (pending p !! i) as [t|] eqn:Hi.
    + pose proof (settled i t r entry p Hi) as Hs. cbv zeta in Hs.
      pose proof (length_delete_lookup _ _ _ Hi) as Hl.
      destruct t, r as [m|o]; cbn [pending set_pending] in Hs;
        repeat match type of Hs with _ /\ _ => destruct Hs as [? Hs] end;
        repeat match goal with H : _ = _ |- _ => rewrite H end;
        rewrite ?length_app; simpl; destruct (btnDisabled p); lia.
    + unfold settle. by rewrite Hi.
Qed.

Lemma app_reachable_tracks_run es : disabled_tracks_run (run es initial).
Proof.
  unfold run. generalize initial, (eq_refl : disabled_tracks_run initial).
  induction es as [|e es IH]; intros p Hp; simpl; [done|].
  by apply IH, app_step_tracks_run.
Qed.

End DetectAppFacts.

Module ControllerFacts.
Import JsString Http.

(** *** C1: a click during a run *)

(** C1, as stated, fails: with a run in flight, invoking the handler is
    not a no-op: it sends [POST /detect/cancel] and parks a second
    invocation of its own, next to the run in flight. *)
Lemma C1_click_while_running_counterexample :
  Detect.detectionInProgress Detect.running = true /\
  Detect.click Detect.running <> Detect.running /\
  Detect.sent (Detect.click Detect.running) = [GetLogsCount; PostDetectCancel] /\
  Detect.pending (Detect.click Detect.running) = [Detect.AwaitCount; Detect.AwaitCancel].
Proof. split; [reflexivity|]. split; [discriminate|]. split; reflexivity. Qed.

(** C1 (amended): on every reachable page at most one detection run is
    in flight.  While [detectionInProgress] is set, a click issues no
    [/logs/count] and no [/detect] request: it issues exactly one
    [/detect/cancel] request, and leaves the flag, the run in flight,
    the stored results and the dialogs as they are.  In frontend/app.js
    the button is disabled during the run and a click changes nothing. *)
Theorem C1_click_during_run_only_cancels
    (es : list Detect.event) (d : Filter.dom) (es' : list DetectApp.event) :
  let p := Detect.run es (Detect.initial d) in
  let q := DetectApp.run es' DetectApp.initial in
  Detect.runs_in_flight p <= 1 /\
  DetectApp.runs_in_flight q <= 1 /\
  (Detect.detectionInProgress p = true ->
     Detect.issued p Detect.Click = [PostDetectCancel] /\
     Detect.detectionInProgress (Detect.click p) = true /\
     Detect.runs_in_flight (Detect.click p) = 1 /\
     Detect.runs_in_flight p = 1 /\
     Detect.allDetectionResults (Detect.click p) = Detect.allDetectionResults p /\
     Detect.dialogs (Detect.click p) = Detect.dialogs p) /\
  (DetectApp.btnDisabled q = true ->
     DetectApp.click q = q /\ DetectApp.issued q DetectApp.Click = []).
Proof.
  intros p q.
  pose proof (DetectFacts.reachable_tracks_run es d) as Hp. fold p in Hp.
  pose proof (DetectAppFacts.app_reachable_tracks_run es') as Hq. fold q in Hq.
  unfold Detect.flag_tracks_run in Hp.
  unfold DetectApp.disabled_tracks_run in Hq.
  split; [destruct (Detect.detectionInProgress p); lia|].
  split; [destruct (DetectApp.btnDisabled q); lia|].
  split.
  - intros Hflag.
    pose proof (DetectFacts.step_tracks_run p Detect.Click Hp) as Hc.
    unfold Detect.flag_tracks_run in Hc. cbn [Detect.step] in Hc.
    unfold Detect.issued. cbn [Detect.step].
    rewrite (DetectFacts.click_running p Hflag) in *.
    cbn [Detect.sent Detect.detectionInProgress Detect.allDetectionResults
         Detect.dialogs Detect.set_pending Detect.send] in *.
    rewrite Hflag in Hp, Hc.
    rewrite drop_app_length. done.
  - intros Hd. unfold DetectApp.issued. cbn [DetectApp.step].
    unfold DetectApp.click. rewrite Hd. split; [done|].
    apply drop_all.
Qed.

Lemma C1_click_during_run_only_cancels_witness :
  Detect.issued Detect.running Detect.Click = [PostDetectCancel] /\
  DetectApp.click (DetectApp.click DetectApp.initial) = DetectApp.click DetectApp.initial.
Proof.
  pose proof (C1_click_during_run_only_cancels [Detect.Click] Detect.no_filter [DetectApp.Click])
    as (_ & _ & Hrun & Happ).
  split.
  - apply Hrun. reflexivity.
  - apply Happ. reflexivity.
Defined.

(** *** C2: the job state after a run *)

(** C2: on every reachable page, whichever way the request a run is
    parked on settles, the run either goes on to its next request or
    ends with the job state reset: a rejected request (network error or
    status not ok) shows the failure dialog and runs the [finally] block;
    a reply to [/detect], cancelled or not, well-formed or not, runs it
    too.  The job state is set only while a run is parked, so it is never
    left set with nothing pending.  The same holds for the disabled
    button of frontend/app.js. *)
Theorem C2_job_state_reset
    (es : list Detect.event) (d : Filter.dom) (es' : list DetectApp.event)
    (i : nat) (r : reply) (entry : option string) :
  let p := Detect.run es (Detect.initial d) in
  let q := DetectApp.run es' DetectApp.initial in
  (forall t, Detect.pending p !! i = Some t ->
     let p' := Detect.settle i r entry p in
     match t, r with
     | Detect.AwaitCount, Body _ =>
         Detect.detectionInProgress p' = true /\ Detect.runs_in_flight p' = 1
     | Detect.AwaitCount, Rejected m | Detect.AwaitDetect, Rejected m =>
         Detect.idle p' /\ Detect.dialogs p' = Detect.dialogs p ++ [DetectionFailed (ApiError m)]
     | Detect.AwaitDetect, Body _ => Detect.idle p'
     | Detect.AwaitCancel, _ =>
         Detect.detectionInProgress p' = Detect.detectionInProgress p
     end) /\
  (Detect.detectionInProgress p = true ->
     exists k t, Detect.pending p !! k = Some t /\ Detect.is_run t = true) /\
  (forall t, DetectApp.pending q !! i = Some t ->
     let q' := DetectApp.settle i r entry q in
     match t, r with
     | DetectApp.AwaitCount, Body _ | DetectApp.AwaitDetect, Body _ =>
         DetectApp.btnDisabled q' = true /\ DetectApp.runs_in_flight q' = 1
     | DetectApp.AwaitRefresh, Body _ => DetectApp.idle q'
     | _, Rejected m =>
         DetectApp.idle q' /\
         DetectApp.dialogs q' = DetectApp.dialogs q ++ [DetectionFailed (ApiError m)]
     end) /\
  (DetectApp.btnDisabled q = true -> DetectApp.pending q <> []).
Proof.
  intros p q.
  pose proof (DetectFacts.reachable_tracks_run es d) as Hp. fold p in Hp.
  pose proof (DetectAppFacts.app_reachable_tracks_run es') as Hq. fold q in Hq.
  split; [|split; [|split]].
  - intros t Hi p'.
    pose proof (DetectFacts.step_tracks_run p (Detect.Settle i r entry) Hp) as Hp'.
    cbn [Detect.step] in Hp'. fold p' in Hp'.
    unfold Detect.flag_tracks_run in Hp'.
    subst p'. unfold Detect.settle in *. rewrite Hi in *.
    set (p0 := Detect.set_pending (delete i (Detect.pending p)) p) in *.
    destruct t.
    + pose proof (DetectFacts.count_settled r entry p0) as Hc. cbv zeta in Hc.
      destruct r as [m|logCount].
      * destruct Hc as (Hf & Hl & _ & _ & _ & Hdlg).
        unfold Detect.idle. rewrite Hf in Hp'. by rewrite Hf, Hl, Hp', Hdlg.
      * destruct Hc as (Hf & _). rewrite Hf in *.
        assert (Hrun : Detect.detectionInProgress p0 = true).
        { pose proof (DetectFacts.runs_delete _ _ _ Hi) as Hd.
          unfold Detect.flag_tracks_run, Detect.runs_in_flight in Hp.
          fold (Detect.runs (Detect.pending p)) in Hp.
          subst p0. cbn [Detect.detectionInProgress Detect.set_pending].
          destruct (Detect.detectionInProgress p); [done|]. simpl in Hd. lia. }
        rewrite Hrun in *. done.
    + pose proof (DetectFacts.detect_settled r p0) as Hc. cbv zeta in Hc.
      destruct Hc as (Hf & Hl & _).
      assert (Hidle : Detect.idle (Detect.try_catch_finally (Detect.after_detect r p0))).
      { unfold Detect.idle. rewrite Hf in Hp'. by rewrite Hf, Hl, Hp'. }
      destruct r as [m|response]; [|exact Hidle].
      split; [exact Hidle | reflexivity].
    + by destruct r.
  - intros Hflag. unfold Detect.flag_tracks_run, Detect.runs_in_flight in Hp.
    rewrite Hflag in Hp.
    destruct (List.filter Detect.is_run (Detect.pending p)) as [|t ts] eqn:Hfil;
      [simpl in Hp; lia|].
    assert (Hin : In t (List.filter Detect.is_run (Detect.pending p)))
      by (rewrite Hfil; by left).
    apply filter_In in Hin as [Hin Hrun].
    apply list_elem_of_In, list_elem_of_lookup in Hin as [k Hk].
    by exists k, t.
  - intros t Hi q'.
    pose proof (DetectAppFacts.app_step_tracks_run q (DetectApp.Settle i r entry) Hq) as Hq'.
    cbn [DetectApp.step] in Hq'. fold q' in Hq'.
    unfold DetectApp.disabled_tracks_run in Hq, Hq'.
    pose proof (DetectAppFacts.settled i t r entry q Hi) as Hs. cbv zeta in Hs.
    fold q' in Hs.
    assert (Hdis : DetectApp.btnDisabled q = true).
    { apply lookup_lt_Some in Hi. unfold DetectApp.runs_in_flight in Hq.
      destruct (DetectApp.btnDisabled q); [done | lia]. }
    unfold DetectApp.idle.
    destruct t, r as [m|o];
      repeat match type of Hs with _ /\ _ => destruct Hs as [? Hs] end;
      repeat match goal with
             | H : DetectApp.btnDisabled q' = _ |- _ => rewrite H in *; clear H
             | H : DetectApp.btnLabel q' = _ |- _ => rewrite H in *; clear H
             end;
      rewrite ?Hdis in *; try done.
  - intros Hdis Hnil. unfold DetectApp.disabled_tracks_run, DetectApp.runs_in_flight in Hq.
    rewrite Hdis, Hnil in Hq. simpl in Hq. lia.
Qed.

Lemma C2_job_state_reset_witness :
  Detect.idle (Detect.settle 0 (Rejected "500 Internal Server Error") None Detect.running) /\
  DetectApp.idle (DetectApp.settle 0 (Rejected "500 Internal Server Error") None
              (DetectApp.click DetectApp.initial)).
Proof.
  pose proof (C2_job_state_reset [Detect.Click] Detect.no_filter [DetectApp.Click] 0
                (Rejected "500 Internal Server Error") None)
    as (Hrun & _ & Happ & _).
  split.
  - exact (proj1 (Hrun Detect.AwaitCount eq_refl)).
  - exact (proj1 (Happ DetectApp.AwaitCount eq_refl)).
Defined.

(** *** C7: an entry that is not a number *)

Lemma nan_limit_is_null logCount entry :
  parseInt entry = NaN -> stringify (choose_limit logCount (Some entry)) = JsonNull.
Proof.
  intros H. unfold choose_limit.
  destruct (count logCount) as [c|]; [|done].
  destruct (10000 <? c)%Z; [|done].
  destruct (truthy entry); [|done].
  by rewrite H.
Qed.

Lemma no_limit_is_null logCount :
  stringify (choose_limit logCount None) = JsonNull /\
  stringify (choose_limit logCount (Some "")) = JsonNull.
Proof.
  unfold choose_limit. destruct (count logCount) as [c|]; [|done].
  by destruct (10000 <? c)%Z.
Qed.

(** C7, as stated, fails: with 20000 stored logs and the entry "abc",
    no error is reported and the run is issued with [limit: null], as it
    is when the prompt is left empty or dismissed. *)
Lemma C7_non_numeric_entry_counterexample :
  let p := Detect.settle 0 (Body Detect.many_logs) (Some "abc") Detect.running in
  parseInt "abc" = NaN /\
  Detect.sent p = [GetLogsCount; PostDetect JsonNull] /\
  Detect.dialogs p = [] /\
  Detect.pending p = [Detect.AwaitDetect] /\
  p = Detect.settle 0 (Body Detect.many_logs) (Some "") Detect.running /\
  p = Detect.settle 0 (Body Detect.many_logs) None Detect.running.
Proof. repeat split; reflexivity. Qed.

(** C7 (amended): an entry [parseInt] reads no number from is not
    reported: [limit] becomes [NaN], which the request body carries as
    [null], so the page goes on exactly as it does when the prompt is
    left empty: the run is issued with [limit: null] and no dialog is
    shown at that point.  Both versions of the handler do so. *)
Theorem C7_non_numeric_limit_sent_as_null
    (es : list Detect.event) (d : Filter.dom) (es' : list DetectApp.event)
    (i : nat) (logCount : object) (entry : string) :
  truthy entry = true ->
  parseInt entry = NaN ->
  let p := Detect.run es (Detect.initial d) in
  let q := DetectApp.run es' DetectApp.initial in
  stringify (choose_limit logCount (Some entry)) = JsonNull /\
  (Detect.pending p !! i = Some Detect.AwaitCount ->
     let p' := Detect.settle i (Body logCount) (Some entry) p in
     p' = Detect.settle i (Body logCount) (Some "") p /\
     Detect.issued p (Detect.Settle i (Body logCount) (Some entry)) = [PostDetect JsonNull] /\
     Detect.dialogs p' = Detect.dialogs p) /\
  (DetectApp.pending q !! i = Some DetectApp.AwaitCount ->
     let q' := DetectApp.settle i (Body logCount) (Some entry) q in
     q' = DetectApp.settle i (Body logCount) (Some "") q /\
     DetectApp.issued q (DetectApp.Settle i (Body logCount) (Some entry)) = [PostDetect JsonNull] /\
     DetectApp.dialogs q' = DetectApp.dialogs q).
Proof.
  intros Htruthy Hnan p q.
  pose proof (nan_limit_is_null logCount entry Hnan) as Hnull.
  pose proof (no_limit_is_null logCount) as [_ Hempty].
  split; [exact Hnull|]. split.
  - intros Hi p'. subst p'. unfold Detect.issued. cbn [Detect.step].
    unfold Detect.settle. rewrite Hi.
    unfold Detect.after_count. rewrite Hnull, Hempty.
    cbn [Detect.try_catch_finally Detect.sent Detect.dialogs Detect.send
         Detect.set_pending].
    rewrite drop_app_length. done.
  - intros Hi q'. subst q'. unfold DetectApp.issued. cbn [DetectApp.step].
    unfold DetectApp.settle. rewrite Hi.
    unfold DetectApp.after_count. rewrite Hnull, Hempty.
    cbn [DetectApp.try_catch_finally DetectApp.sent DetectApp.dialogs DetectApp.send
         DetectApp.set_pending].
    rewrite drop_app_length. done.
Qed.

Lemma C7_non_numeric_limit_sent_as_null_witness :
  Detect.issued Detect.running (Detect.Settle 0 (Body Detect.many_logs) (Some "ten")) = [PostDetect JsonNull] /\
  DetectApp.issued (DetectApp.click DetectApp.initial)
    (DetectApp.Settle 0 (Body Detect.many_logs) (Some "ten")) = [PostDetect JsonNull].
Proof.
  pose proof (C7_non_numeric_limit_sent_as_null [Detect.Click] Detect.no_filter [DetectApp.Click]
                0 Detect.many_logs "ten" eq_refl eq_refl) as (_ & Hrun & Happ).
  split.
  - exact (proj1 (proj2 (Hrun eq_refl))).
  - exact (proj1 (proj2 (Happ eq_refl))).
Defined.

End ControllerFacts.

(* ===================================================================== *)
(** * Further properties of the reconciler *)
(* ===================================================================== *)

Module ReconcilerMore.
Import JsString Alerts Reconciler ReconcilerFacts.

(** *** Which alerts a pass creates items for *)

Lemma forEach_fresh_spec alerts s :
  let new := snd (forEach alerts s) in
  NoDup (log_id <$> new) /\
  sublist new alerts /\
  (forall b, b ∈ new -> log_id b ∉ knownAlertIds s) /\
  (forall a, a ∈ alerts -> log_id a ∉ knownAlertIds s ->
     exists b, b ∈ new /\ log_id b = log_id a).
Proof.
  revert s. induction alerts as [|a rest IH]; intros s; simpl.
  - split; [constructor|]. split; [constructor|].
    split; intros x Hx; by apply elem_of_nil in Hx.
  - unfold forEach_body. case_decide as Hin; simpl.
    + specialize (IH s). destruct (forEach rest s) as [s2 fresh]. simpl in *.
      destruct IH as (Hnd & Hsub & Hnew & Hall).
      split; [done|]. split; [by constructor|]. split; [done|].
      intros x [->|Hx]%elem_of_cons Hun; [done | by apply Hall].
    + match goal with |- context [forEach rest ?s1] =>
        specialize (IH s1); destruct (forEach rest s1) as [s2 fresh] end.
      simpl in *. destruct IH as (Hnd & Hsub & Hnew & Hall).
      split; [|split; [|split]].
      * constructor; [|done]. intros Hx.
        apply list_elem_of_fmap in Hx as (b & Hb & Hbin).
        apply Hnew in Hbin. set_solver.
      * by constructor.
      * intros b [->|Hb]%elem_of_cons; [done|].
        apply Hnew in Hb. set_solver.
      * intros x [->|Hx]%elem_of_cons Hun.
        -- exists a. split; [left | done].
        -- destruct (decide (log_id x = log_id a)) as [E|E].
           ++ exists a. split; [left | done].
           ++ destruct (Hall x Hx) as (b & Hb & Hid); [set_solver|].
              exists b. split; [by right | done].
Qed.

Lemma reconcile_fresh_spec alerts s :
  let new := snd (reconcile alerts s) in
  NoDup (log_id <$> new) /\
  sublist new alerts /\
  (forall b, b ∈ new -> log_id b ∉ knownAlertIds s) /\
  (forall a, a ∈ alerts -> log_id a ∉ knownAlertIds s ->
     exists b, b ∈ new /\ log_id b = log_id a).
Proof.
  unfold reconcile. destruct alerts as [|a rest].
  - simpl. split; [constructor|]. split; [constructor|].
    split; intros x Hx; by apply elem_of_nil in Hx.
  - change (List.length (a :: rest) =? 0)%nat with false. cbv iota.
    apply (forEach_fresh_spec (a :: rest)
             (State (knownAlertIds s) (children s) (List.length (a :: rest)))).
Qed.

(** *** Where the new items go *)

Lemma take_app_take {A} n (l k : list A) :
  take n (l ++ take n k) = take n (l ++ k).
Proof.
  rewrite !take_app, take_take. f_equal. f_equal. lia.
Qed.

Lemma forEach_children alerts s :
  children (fst (forEach alerts s)) =
  match snd (forEach alerts s) with
  | [] => children s
  | new => take 51 (reverse (Item <$> new) ++ children s)
  end.
Proof.
  revert s. induction alerts as [|a rest IH]; intros s; simpl; [done|].
  unfold forEach_body. case_decide as Hin; simpl.
  - specialize (IH s). by destruct (forEach rest s) as [s2 fresh].
  - match goal with |- context [forEach rest ?s1] =>
      specialize (IH s1); destruct (forEach rest s1) as [s2 fresh] end.
    simpl in *. rewrite IH, evict_take. destruct fresh as [|b fresh].
    + reflexivity.
    + rewrite take_app_take.
      change (Item <$> a :: b :: fresh) with (Item a :: (Item <$> b :: fresh)).
      rewrite (reverse_cons _ (Item a)), <- app_assoc. reflexivity.
Qed.

Lemma omap_items (l : list alert) : omap item_alert (Item <$> l) = l.
Proof. induction l as [|a l IH]; csimpl; [done|]. by rewrite IH. Qed.

Lemma omap_take_prefix {A B} (f : A -> option B) n (l : list A) :
  omap f (take n l) `prefix_of` omap f l.
Proof.
  rewrite <- (take_drop n l) at 2. rewrite omap_app.
  by apply prefix_app_r.
Qed.

Lemma reconcile_children alerts s :
  children (fst (reconcile alerts s)) =
  match snd (reconcile alerts s) with
  | [] => children s
  | new => take 51 (reverse (Item <$> new) ++ children s)
  end.
Proof.
  unfold reconcile. destruct alerts as [|a rest]; [done|].
  change (List.length (a :: rest) =? 0)%nat with false. cbv iota.
  apply (forEach_children (a :: rest)
           (State (knownAlertIds s) (children s) (List.length (a :: rest)))).
Qed.

(** X1: a poll adds the ids of the reply to the seen set and removes
    none: afterwards the set is exactly the old one together with every
    [log_id] of the reply. *)
Theorem poll_extends_seen_set alerts s :
  knownAlertIds (fst (reconcile alerts s)) =
  knownAlertIds s ∪ list_to_set (log_id <$> alerts).
Proof.
  apply set_eq. intros id. rewrite reconcile_known.
  rewrite elem_of_union, elem_of_list_to_set. done.
Qed.



(** X3: new items go to the front and old ones fall off the end: after a
    poll the feed is a prefix of the alerts just taken in, last one
    first, followed by the old feed; when the poll took in anything, the
    head of the feed is the last alert taken in and the list holds at
    most 51 children, whatever it held before. *)
Theorem poll_puts_newest_first alerts s :
  let new := snd (reconcile alerts s) in
  let s' := fst (reconcile alerts s) in
  feed s' `prefix_of` reverse new ++ feed s /\
  (new <> [] ->
     children s' = take 51 (reverse (Item <$> new) ++ children s) /\
     head (feed s') = last new /\
     List.length (children s') <= 51).
Proof.
  intros new s'. subst new s'.
  pose proof (reconcile_children alerts s) as Hc.
  destruct (snd (reconcile alerts s)) as [|b new] eqn:Hnew.
  - split; [|done]. unfold feed. rewrite Hc. done.
  - assert (Hfeed : feed (fst (reconcile alerts s)) `prefix_of`
                    reverse (b :: new) ++ feed s).
    { unfold feed. rewrite Hc.
      etrans; [apply omap_take_prefix|].
      rewrite omap_app, <- fmap_reverse, omap_items. done. }
    split; [exact Hfeed|]. intros _. split; [exact Hc|]. split.
    + rewrite <- head_reverse.
      destruct (reverse (b :: new)) as [|x xs] eqn:Hrev.
      { apply (f_equal List.length) in Hrev. rewrite length_reverse in Hrev. done. }
      unfold feed in *. rewrite Hc, <- fmap_reverse, Hrev. reflexivity.
    + rewrite Hc, length_take. lia.
Qed.

Lemma poll_puts_newest_first_witness :
  head (feed (fst (reconcile (samples 3) (initial 1)))) = Some (sample 3).
Proof.
  pose proof (poll_puts_newest_first (samples 3) (initial 1)) as [_ H].
  destruct H as (_ & Hhead & _); [discriminate|].
  rewrite Hhead. reflexivity.
Defined.

(** X4: on a page loaded with at most 51 static children, no sequence of
    polls and clears makes the list hold more than 51 children, so the
    feed never shows more than 51 alerts. *)
Theorem feed_never_exceeds_51 placeholders ops :
  placeholders <= 51 ->
  let s := run ops (initial placeholders) in
  List.length (children s) <= 51 /\ List.length (feed s) <= 51.
Proof.
  intros Hp s.
  assert (Hc : List.length (children s) <= 51).
  { subst s.
    assert (H0 : List.length (children (initial placeholders)) <= 51)
      by (simpl; by rewrite length_replicate).
    revert H0. generalize (initial placeholders) as s0.
    induction ops as [|o ops IH]; intros s0 Hs; simpl; [done|].
    apply IH. destruct o as [alerts|]; simpl; [|lia].
    unfold reconcile. destruct (List.length alerts =? 0)%nat; simpl; [done|].
    by apply forEach_children_bound. }
  split; [exact Hc|]. etrans; [apply feed_length_le_children | exact Hc].
Qed.

Lemma feed_never_exceeds_51_witness :
  List.length (feed (run [Poll (samples 60); Clear; Poll (samples 55)] (initial 1))) <= 51.
Proof.
  apply (feed_never_exceeds_51 1 [Poll (samples 60); Clear; Poll (samples 55)]). lia.
Defined.

(** X5: clearing forgets everything: whatever the page held, after the
    clear-alerts handler the feed is empty and the next poll takes in
    every id of the reply once, seen before or not. *)
Theorem clear_then_poll_takes_in_all s alerts :
  let new := snd (reconcile alerts (clear s)) in
  feed (clear s) = [] /\
  knownAlertIds (clear s) = ∅ /\
  NoDup (log_id <$> new) /\
  (forall id, id ∈ (log_id <$> new) <-> id ∈ (log_id <$> alerts)).
Proof.
  intros new. subst new.
  pose proof (reconcile_fresh_spec alerts (clear s)) as (Hnd & Hsub & _ & Hall).
  split; [done|]. split; [done|]. split; [exact Hnd|].
  intros id. split.
  - intros Hid. eapply sublist_subseteq; [|exact Hid]. by apply fmap_sublist.
  - intros (a & -> & Ha)%list_elem_of_fmap.
    destruct (Hall a Ha) as (b & Hb & <-); [simpl; set_solver|].
    by apply list_elem_of_fmap_2.
Qed.

End ReconcilerMore.

(* ===================================================================== *)
(** * Further properties of the charts *)
(* ===================================================================== *)

Module AggregatorMore.
Import JsString Alerts Aggregator AggregatorAux AggregatorFacts.

(** *** Tallies *)

Lemma tally_cons label a alerts :
  tally label (a :: alerts) =
  (if strict_eq (threat_label a) label then 1 else 0) + tally label alerts.
Proof. unfold tally. simpl. by destruct (strict_eq _ _). Qed.

Lemma tally_app label l k : tally label (l ++ k) = tally label l + tally label k.
Proof. unfold tally. by rewrite List.filter_app, length_app. Qed.

Lemma tally_perm label l k : l ≡ₚ k -> tally label l = tally label k.
Proof.
  induction 1 as [|x l k _ IH|x y l|l k m _ IH1 _ IH2].
  - done.
  - by rewrite !tally_cons, IH.
  - rewrite !tally_cons. lia.
  - congruence.
Qed.

Lemma tally_concat label (cs : list (list alert)) :
  sum_list (tally label <$> cs) = tally label (List.concat cs).
Proof.
  induction cs as [|c cs IH]; csimpl; [done|].
  by rewrite tally_app, IH.
Qed.

Lemma strict_eq_true v s : strict_eq v s = true <-> v = Str s.
Proof.
  destruct v as [| |t]; simpl; split; try done.
  - by intros ->%String.eqb_eq.
  - intros [= ->]. apply String.eqb_refl.
Qed.

Lemma three_tallies alerts :
  tally "Attack" alerts + tally "Suspicious" alerts + tally "Normal" alerts
  <= List.length alerts /\
  (tally "Attack" alerts + tally "Suspicious" alerts + tally "Normal" alerts
   = List.length alerts <-> Forall charted alerts).
Proof.
  induction alerts as [|a alerts [IHle IHeq]].
  - split; [done|]. split; [constructor | done].
  - rewrite !tally_cons. cbn [List.length].
    destruct (strict_eq (threat_label a) "Attack") eqn:EA;
      destruct (strict_eq (threat_label a) "Suspicious") eqn:ES;
      destruct (strict_eq (threat_label a) "Normal") eqn:EN;
      try (apply strict_eq_true in EA); try (apply strict_eq_true in ES);
      try (apply strict_eq_true in EN); try congruence.
    + split; [lia|]. rewrite Forall_cons. unfold charted at 1.
      split; [intros H; split; [tauto | apply IHeq; lia] | intros [_ H%IHeq]; lia].
    + split; [lia|]. rewrite Forall_cons. unfold charted at 1.
      split; [intros H; split; [tauto | apply IHeq; lia] | intros [_ H%IHeq]; lia].
    + split; [lia|]. rewrite Forall_cons. unfold charted at 1.
      split; [intros H; split; [tauto | apply IHeq; lia] | intros [_ H%IHeq]; lia].
    + split; [lia|]. rewrite Forall_cons. unfold charted at 1.
      assert (Hno : ~ (threat_label a = Str "Attack" \/ threat_label a = Str "Suspicious"
                       \/ threat_label a = Str "Normal")).
      { intros [H|[H|H]]; apply strict_eq_true in H; congruence. }
      split; [intros H; lia | intros [H _]; done].
Qed.

Section Runtime.
Variable time_value : string -> Z.
Variable hour_minute : Z -> string.

Local Abbreviation time_of := (time_of time_value).
Local Abbreviation sort := (sort time_value).
Local Abbreviation bucketSize := (bucketSize time_value).
Local Abbreviation updateCharts := (updateCharts time_value hour_minute).
Local Abbreviation spec_timeline := (spec_timeline time_value hour_minute).
Local Abbreviation bucket_label := (bucket_label time_value hour_minute).

Lemma updateCharts_threat alerts c d :
  threatChart c = Some d ->
  threatChart (updateCharts alerts c) =
  Some [tally "Attack" alerts; tally "Suspicious" alerts; tally "Normal" alerts].
Proof.
  intros Hd. unfold Aggregator.updateCharts. rewrite Hd.
  cbn [timelineChart threatChart].
  destruct (timelineChart c); [destruct (0 <? List.length alerts)%nat|]; done.
Qed.

(** X6: the doughnut chart is set on every call, empty reply included,
    to the Attack, Suspicious and Normal tallies of the reply; the three
    add up to at most the number of alerts, and to exactly that number
    when every label is one of the three; the order of the reply does not
    matter. *)
Theorem distribution_is_tally_of_reply alerts c d :
  threatChart c = Some d ->
  let A := tally "Attack" alerts in
  let S := tally "Suspicious" alerts in
  let N := tally "Normal" alerts in
  threatChart (updateCharts alerts c) = Some [A; S; N] /\
  A + S + N <= List.length alerts /\
  (A + S + N = List.length alerts <-> Forall charted alerts) /\
  (forall alerts', alerts ≡ₚ alerts' ->
     threatChart (updateCharts alerts' c) = threatChart (updateCharts alerts c)).
Proof.
  intros Hd A S N. subst A S N.
  pose proof (three_tallies alerts) as [Hle Heq].
  split; [by eapply updateCharts_threat|]. split; [exact Hle|]. split; [exact Heq|].
  intros alerts' Hp.
  rewrite !(updateCharts_threat _ c d Hd).
  by rewrite !(tally_perm _ _ _ Hp).
Qed.

Lemma chunks_fuel_count fuel size (l : list alert) :
  0 < size -> List.length l <= fuel ->
  let k := List.length (chunks_fuel fuel size l) in
  List.length l <= k * size /\ (l <> [] -> 0 < k /\ (k - 1) * size < List.length l).
Proof.
  intros Hsize. revert l. induction fuel as [|fuel IH]; intros l Hl.
  - destruct l; [|simpl in Hl; lia]. simpl. split; [lia | done].
  - destruct l as [|x l]; [simpl; split; [lia | done]|].
    change (chunks_fuel (S fuel) size (x :: l))
      with (take size (x :: l) :: chunks_fuel fuel size (drop size (x :: l))).
    cbn [List.length]. cbv zeta.
    destruct (IH (drop size (x :: l))) as [Hup Hlow].
    { rewrite length_drop. simpl in *. lia. }
    cbv zeta in Hup, Hlow. rewrite length_drop in Hup, Hlow. cbn [List.length] in *.
    split; [lia|]. intros _. split; [lia|].
    destruct (drop size (x :: l)) as [|y d] eqn:Ed.
    + destruct fuel; simpl; lia.
    + destruct Hlow as [Hk Hlt]; [done|].
      apply (f_equal List.length) in Ed. rewrite length_drop in Ed.
      cbn [List.length] in Ed. nia.
Qed.

Lemma timeline_of_reply alerts c t :
  timelineChart c = Some t -> alerts <> [] ->
  timelineChart (updateCharts alerts c) = Some (spec_timeline alerts) /\
  spec_timeline alerts =
    (let cs := chunks (bucketSize alerts) (sort alerts) in
     Timeline (bucket_label <$> cs) (tally "Attack" <$> cs) (tally "Suspicious" <$> cs)) /\
  0 < bucketSize alerts /\ 0 < bucketCount alerts /\
  List.length alerts <= bucketCount alerts * bucketSize alerts.
Proof.
  intros Ht Hne.
  assert (Hn : 0 < List.length alerts) by (destruct alerts; simpl; [done | lia]).
  assert (Hbc : 0 < bucketCount alerts).
  { unfold bucketCount. pose proof (ceil_div_pos (List.length alerts) 5). lia. }
  assert (Hbs : bucketSize alerts = ceil_div (List.length alerts) (bucketCount alerts)).
  { unfold Aggregator.bucketSize. by rewrite sort_length. }
  split; [|split; [|split; [|split]]].
  - rewrite (updateCharts_timeline _ _ alerts c t Ht).
    destruct (Nat.ltb_spec 0 (List.length alerts)); [|lia].
    by rewrite build_timeline_chunks.
  - unfold Aggregator.spec_timeline.
    destruct (Nat.eqb_spec (List.length alerts) 0); [lia|].
    fold (bucketCount alerts). by rewrite <- Hbs.
  - rewrite Hbs. by apply ceil_div_pos.
  - exact Hbc.
  - rewrite Hbs. rewrite Nat.mul_comm.
    pose proof (ceil_div_upper (List.length alerts) (bucketCount alerts) Hbc). lia.
Qed.

(** X7: the buckets lose and invent nothing: for a non-empty reply the
    attack counts of the timeline add up to the number of Attack alerts
    of the reply, and the suspicious counts to the number of Suspicious
    alerts. *)
Theorem timeline_counts_add_up alerts c t :
  timelineChart c = Some t -> alerts <> [] ->
  exists tl,
    timelineChart (updateCharts alerts c) = Some tl /\
    sum_list (attackData tl) = tally "Attack" alerts /\
    sum_list (suspData tl) = tally "Suspicious" alerts.
Proof.
  intros Ht Hne.
  destruct (timeline_of_reply alerts c t Ht Hne) as (Hupd & Hspec & Hbs & _ & _).
  exists (spec_timeline alerts). split; [exact Hupd|].
  rewrite Hspec. cbn [attackData suspData]. rewrite !tally_concat.
  destruct (chunks_fuel_concat (List.length (sort alerts)) (bucketSize alerts)
              (sort alerts) Hbs (le_n _)) as [Hcat _].
  unfold chunks. rewrite Hcat.
  split; apply tally_perm, sort_perm.
Qed.

(** X8: the three series of the timeline always have one point per
    bucket; for a non-empty reply of [n] alerts there are [k >= 1]
    buckets, [k] is the least number of chunks of [bucketSize] alerts that
    hold them all, and it is at most [bucketCount], hence at most 10. *)
Theorem timeline_series_are_aligned alerts c t :
  timelineChart c = Some t -> alerts <> [] ->
  exists tl k,
    timelineChart (updateCharts alerts c) = Some tl /\
    List.length (labels tl) = k /\ List.length (attackData tl) = k /\
    List.length (suspData tl) = k /\
    1 <= k /\ k <= bucketCount alerts /\ bucketCount alerts <= 10 /\
    (k - 1) * bucketSize alerts < List.length alerts <= k * bucketSize alerts.
Proof.
  intros Ht Hne.
  destruct (timeline_of_reply alerts c t Ht Hne) as (Hupd & Hspec & Hbs & Hbc & Hcover).
  exists (spec_timeline alerts),
         (List.length (chunks (bucketSize alerts) (sort alerts))).
  split; [exact Hupd|]. rewrite Hspec. cbn [labels attackData suspData].
  rewrite !length_fmap. split; [done|]. split; [done|]. split; [done|].
  pose proof (chunks_fuel_count (List.length (sort alerts)) (bucketSize alerts)
                (sort alerts) Hbs (le_n _)) as [Hup Hlow].
  cbv zeta in Hup, Hlow. fold (chunks (bucketSize alerts) (sort alerts)) in Hup, Hlow.
  rewrite sort_length in Hup, Hlow.
  destruct Hlow as [Hk Hlt].
  { intros E. apply (f_equal List.length) in E. rewrite sort_length in E.
    destruct alerts; simpl in E; [done | lia]. }
  assert (Hten : bucketCount alerts <= 10) by (unfold bucketCount; lia).
  repeat split; try lia. nia.
Qed.

Lemma NoDup_fmap_inj_on {A B} (f : A -> B) (l : list A) x y :
  NoDup (f <$> l) -> x ∈ l -> y ∈ l -> f x = f y -> x = y.
Proof.
  induction l as [|a l IH]; csimpl; intros Hnd Hx Hy Hf.
  - by apply elem_of_nil in Hx.
  - apply NoDup_cons in Hnd as [Hin Hnd].
    apply elem_of_cons in Hx as [->|Hx]; apply elem_of_cons in Hy as [->|Hy].
    + done.
    + exfalso. apply Hin. rewrite Hf. by apply list_elem_of_fmap_2.
    + exfalso. apply Hin. rewrite <- Hf. by apply list_elem_of_fmap_2.
    + by apply IH.
Qed.

Lemma sort_of_permutation alerts alerts' :
  alerts ≡ₚ alerts' -> NoDup (time_of <$> alerts) -> sort alerts = sort alerts'.
Proof.
  intros Hp Hnd.
  pose (R := fun a b : alert => (time_of a <= time_of b)%Z).
  assert (Htrans : Transitive R) by (intros x y z; unfold R; lia).
  apply (StronglySorted_unique_strong R).
  - intros x1 x2 H1 H2 H12 H21. unfold R in *.
    apply (NoDup_fmap_inj_on time_of alerts); [done | | | lia].
    + by rewrite <- (sort_perm time_value alerts).
    + by rewrite Hp, <- (sort_perm time_value alerts').
  - apply Sorted_StronglySorted; [done|]. apply sort_ascending.
  - apply Sorted_StronglySorted; [done|]. apply sort_ascending.
  - by rewrite !sort_perm.
Qed.

(** X9: when no two alerts carry the same time value, the charts do not
    depend on the order in which the backend lists the alerts. *)
Theorem charts_ignore_reply_order alerts alerts' c :
  alerts ≡ₚ alerts' -> NoDup (time_of <$> alerts) ->
  updateCharts alerts' c = updateCharts alerts c.
Proof.
  intros Hp Hnd.
  pose proof (sort_of_permutation alerts alerts' Hp Hnd) as Hsort.
  pose proof (Permutation_length Hp) as Hlen.
  unfold Aggregator.updateCharts, Aggregator.build_timeline,
    Aggregator.bucketSize, Aggregator.bucketCount.
  by rewrite <- Hsort, <- Hlen, <- !(tally_perm _ _ _ Hp).
Qed.

End Runtime.

Lemma distribution_is_tally_of_reply_witness :
  threatChart (updateCharts same_instant midnight [early; late; an_attack] initCharts)
  = Some [2; 1; 0].
Proof.
  pose proof (distribution_is_tally_of_reply same_instant midnight
                [early; late; an_attack] initCharts [0; 0; 0] eq_refl) as [H _].
  exact H.
Defined.

Lemma timeline_counts_add_up_witness :
  exists tl,
    timelineChart (updateCharts length_clock midnight [late; early; an_attack] initCharts)
    = Some tl /\
    sum_list (attackData tl) = 2 /\ sum_list (suspData tl) = 1.
Proof.
  apply (timeline_counts_add_up length_clock midnight [late; early; an_attack]
           initCharts (Timeline [] [] []) eq_refl).
  discriminate.
Defined.

Lemma timeline_series_are_aligned_witness :
  exists tl k,
    timelineChart (updateCharts length_clock midnight (replicate 51 an_attack) initCharts)
    = Some tl /\
    List.length (labels tl) = k /\ List.length (attackData tl) = k /\
    List.length (suspData tl) = k /\
    1 <= k /\ k <= bucketCount (replicate 51 an_attack) /\
    bucketCount (replicate 51 an_attack) <= 10 /\
    (k - 1) * bucketSize length_clock (replicate 51 an_attack)
      < List.length (replicate 51 an_attack)
      <= k * bucketSize length_clock (replicate 51 an_attack).
Proof.
  apply (timeline_series_are_aligned length_clock midnight (replicate 51 an_attack)
           initCharts (Timeline [] [] []) eq_refl).
  discriminate.
Defined.

Lemma charts_ignore_reply_order_witness :
  updateCharts length_clock midnight [late; early] initCharts
  = updateCharts length_clock midnight [early; late] initCharts.
Proof.
  apply (charts_ignore_reply_order length_clock midnight [early; late] [late; early]).
  - apply Permutation_swap.
  - repeat constructor; set_solver.
Defined.

End AggregatorMore.


(* ===================================================================== *)
(** * Further properties of the detection page *)
(* ===================================================================== *)

Module DetectMore.
Import JsString Http Detect DetectAux DetectFacts.

Lemma how_many_snoc {A} (f : A -> bool) l x :
  how_many f (l ++ [x]) = how_many f l + (if f x then 1 else 0).
Proof.
  unfold how_many. rewrite List.filter_app, length_app. simpl.
  by destruct (f x).
Qed.

Lemma how_many_delete {A} (f : A -> bool) (l : list A) i x :
  l !! i = Some x ->
  how_many f l = how_many f (delete i l) + (if f x then 1 else 0).
Proof.
  revert i. induction l as [|y l IH]; intros [|i] H; simpl in H; try done.
  - injection H as ->. unfold how_many. simpl. destruct (f x); simpl; lia.
  - specialize (IH i H). unfold how_many in *. simpl.
    destruct (f y); simpl; lia.
Qed.

Lemma head_snoc {A} (l : list A) x :
  head (l ++ [x]) = match l with [] => Some x | y :: _ => Some y end.
Proof. by destruct l. Qed.

Lemma step_in_step p e : in_step p -> in_step (step p e).
Proof.
  unfold in_step. intros (H1 & H2 & H3 & H4 & H5).
  destruct e as [|i r entry|threat ip]; cbn [step].
  - destruct (detectionInProgress p) eqn:Hflag.
    + rewrite (click_running p Hflag).
      cbn [sent pending detectionInProgress set_pending send].
      rewrite !how_many_snoc, head_snoc. cbn [is_detect_request is_count_request
        awaits_count awaits_detect].
      specialize (H3 eq_refl).
      destruct (sent p) as [|x xs] eqn:Hs; [unfold how_many in H3; simpl in H3; lia|].
      simpl in H5. repeat split; try lia; try done.
    + destruct (click_idle p Hflag) as (-> & -> & ->).
      rewrite !how_many_snoc, head_snoc. cbn [is_detect_request is_count_request
        awaits_count awaits_detect].
      repeat split; try lia.
      destruct (sent p) as [|x xs] eqn:Hs; [by right|]. simpl in H5. done.
  - unfold settle. destruct (pending p !! i) as [t|] eqn:Hi; [|done].
    pose proof (how_many_delete awaits_count _ _ _ Hi) as Hdc.
    pose proof (how_many_delete awaits_detect _ _ _ Hi) as Hdd.
    set (p0 := set_pending (delete i (pending p)) p).
    destruct t; cbn [awaits_count awaits_detect] in Hdc, Hdd.
    + pose proof (count_settled r entry p0) as Hc. cbv zeta in Hc.
      destruct r as [m|logCount].
      * destruct Hc as (-> & _ & _ & -> & -> & _).
        subst p0. cbn [sent pending set_pending].
        repeat split; try lia; try done.
      * destruct Hc as (-> & -> & -> & _).
        subst p0. cbn [sent pending detectionInProgress set_pending].
        rewrite !how_many_snoc, head_snoc. cbn [is_detect_request is_count_request
          awaits_count awaits_detect].
        destruct (sent p) as [|x xs] eqn:Hs;
          [change (how_many is_count_request []) with 0 in H1; lia|].
        simpl in H5. repeat split; try lia; try done.
    + pose proof (detect_settled r p0) as Hc. cbv zeta in Hc.
      destruct Hc as (-> & _ & _ & -> & ->).
      subst p0. cbn [sent pending set_pending].
      repeat split; try lia; try done.
    + subst p0.
      destruct r; cbn [sent pending detectionInProgress set_pending set_label console_error];
        repeat split; try lia; try done.
  - done.
Qed.

Lemma reachable_in_step es d : in_step (run es (initial d)).
Proof.
  unfold run. assert (H0 : in_step (initial d)).
  { unfold in_step, how_many. simpl. repeat split; try lia; try done. by left. }
  revert H0. generalize (initial d).
  induction es as [|e es IH]; intros p Hp; simpl; [done|].
  by apply IH, step_in_step.
Qed.

(** X10: the detection page never asks for a detection it has not prepared:
    on every reachable page the first request sent, if any, is
    [GET /logs/count], and the [POST /detect] requests sent so far are no
    more than the [/logs/count] requests sent, each invocation still
    waiting for its count standing for one that is yet to come. *)
Theorem detect_requests_follow_counts es d :
  let p := run es (initial d) in
  how_many is_detect_request (sent p) + how_many awaits_count (pending p)
    <= how_many is_count_request (sent p) /\
  how_many awaits_detect (pending p) <= how_many is_detect_request (sent p) /\
  (head (sent p) = None \/ head (sent p) = Some GetLogsCount).
Proof.
  intros p. destruct (reachable_in_step es d) as (H1 & H2 & _ & _ & H5). done.
Qed.

(** X11: a run that fails leaves the table alone: when the request a run is
    parked on is rejected, the stored results and the whole filter view
    (controls, count and rows) are as before; only the failure dialog is
    added. *)
Theorem failed_run_keeps_results p i t m entry :
  pending p !! i = Some t -> is_run t = true ->
  let p' := settle i (Rejected m) entry p in
  allDetectionResults p' = allDetectionResults p /\
  dom p' = dom p /\
  sent p' = sent p /\
  dialogs p' = dialogs p ++ [DetectionFailed (ApiError m)].
Proof.
  intros Hi Hrun. unfold settle. rewrite Hi.
  destruct t; [| |done]; done.
Qed.

Lemma failed_run_keeps_results_witness :
  dom (settle 0 (Rejected "503 Service Unavailable") None running) = no_filter.
Proof.
  destruct (failed_run_keeps_results running 0 AwaitCount "503 Service Unavailable" None
              eq_refl eq_refl) as (_ & H & _).
  exact H.
Defined.

(** X12: a reply to [/detect] replaces the stored results wholesale by its
    [analyzed_events] (by the empty list when the property is missing),
    whatever was stored before, and the count shown is the number of new
    results that pass the current filters, even when rendering the rows
    or the dialog then throws. *)
Theorem detect_reply_replaces_results p i response entry :
  pending p !! i = Some AwaitDetect ->
  let p' := settle i (Body response) entry p in
  let results := default [] (analyzed_events response) in
  allDetectionResults p' = results /\
  Filter.resultsCount (dom p') =
    List.length (Filter.filtered (Filter.filterThreat (dom p))
                                 (Filter.filterIP (dom p)) results) /\
  Filter.filterThreat (dom p') = Filter.filterThreat (dom p) /\
  Filter.filterIP (dom p') = Filter.filterIP (dom p) /\
  detectionInProgress p' = false.
Proof.
  intros Hi. unfold settle. rewrite Hi. unfold after_detect.
  cbn [dom set_pending].
  pose proof (FilterFacts.applyFilters_count (default [] (analyzed_events response)) (dom p))
    as Hcount.
  assert (Hkeep : Filter.filterThreat
                    (fst (Filter.applyFilters (default [] (analyzed_events response)) (dom p)))
                  = Filter.filterThreat (dom p) /\
                  Filter.filterIP
                    (fst (Filter.applyFilters (default [] (analyzed_events response)) (dom p)))
                  = Filter.filterIP (dom p)).
  { unfold Filter.applyFilters.
    destruct (List.length _ =? 0)%nat; [done|]. by destruct (mapM _ _). }
  destruct Hkeep as [Hk1 Hk2].
  destruct (Filter.applyFilters _ _) as [d threw]. simpl in Hcount, Hk1, Hk2.
  case_split; simpl; done.
Qed.

Lemma detect_reply_replaces_results_witness :
  allDetectionResults
    (settle 0 (Body (Object None (Some [Filter.plain]) false (Some 1%Z) None)) None
       (settle 0 (Body many_logs) None running))
  = [Filter.plain].
Proof.
  destruct (detect_reply_replaces_results (settle 0 (Body many_logs) None running) 0
              (Object None (Some [Filter.plain]) false (Some 1%Z) None) None eq_refl)
    as (H & _).
  exact H.
Defined.

Lemma render_scored (f : list Filter.result) :
  Forall scored f -> is_Some (mapM Filter.render f).
Proof.
  intros H. apply mapM_is_Some. eapply Forall_impl; [exact H|].
  intros r Hr. unfold scored, Filter.render in *. simpl.
  destruct (Filter.threat_score r); [by eexists | done].
Qed.

Lemma applyFilters_forgets R t ip c b c' b' :
  Forall scored R ->
  Filter.applyFilters R (Filter.Dom t ip c b) = Filter.applyFilters R (Filter.Dom t ip c' b').
Proof.
  intros HR. unfold Filter.applyFilters. cbn [Filter.filterThreat Filter.filterIP
    Filter.resultsCount Filter.detectBody].
  destruct (List.length (Filter.filtered t ip R) =? 0)%nat; [done|].
  destruct (render_scored (Filter.filtered t ip R)) as [rows Hrows].
  { rewrite FilterFacts.filtered_conjunction.
    apply Forall_forall. intros r Hr. rewrite Forall_forall in HR. apply HR.
    apply list_elem_of_In in Hr. apply filter_In in Hr as [Hr _].
    by apply list_elem_of_In. }
  by rewrite Hrows.
Qed.

(** X13: filters do not pile up: a change of the filter controls sends
    nothing and keeps the stored results, the count shown after it is the
    number of stored results passing the new filters only, and when every
    stored result has a score the whole view is the one the new filters
    give on their own, whatever filters were set in between. *)
Theorem filters_do_not_accumulate p t1 ip1 t2 ip2 :
  let p2 := filter_changed t2 ip2 (filter_changed t1 ip1 p) in
  allDetectionResults p2 = allDetectionResults p /\
  sent p2 = sent p /\
  Filter.resultsCount (dom p2) =
    List.length (Filter.filtered t2 ip2 (allDetectionResults p)) /\
  (Forall scored (allDetectionResults p) -> dom p2 = dom (filter_changed t2 ip2 p)).
Proof.
  cbv zeta. unfold filter_changed. cbn [allDetectionResults sent dom].
  split; [done|]. split; [done|]. split.
  - by rewrite FilterFacts.applyFilters_count.
  - intros Hs. f_equal. by apply applyFilters_forgets.
Qed.

Lemma filters_do_not_accumulate_witness :
  let p := settle 0 (Body (Object None (Some [Filter.plain; Filter.lacking_ip]) false
                                  (Some 2%Z) None)) None
             (settle 0 (Body many_logs) None running) in
  dom (filter_changed "all" "" (filter_changed "Attack" "10." p))
  = dom (filter_changed "all" "" p).
Proof.
  cbv zeta.
  match goal with |- dom (filter_changed _ _ (filter_changed _ _ ?p)) = _ =>
    destruct (filters_do_not_accumulate p "Attack" "10." "all" "") as (_ & _ & _ & H)
  end.
  apply H. repeat constructor; discriminate.
Defined.

End DetectMore.

(* ===================================================================== *)
(** * Properties of the sidebar toggle *)
(* ===================================================================== *)

Module SidebarFacts.
Import Sidebar.

Lemma load_synced m st : expanded_markup m -> synced m (load m st).
Proof.
  intros (Hs & Ht & Hm). unfold load, initSidebarToggle. simpl. rewrite Hs, Ht.
  exists (bool_decide (st = Some "true")). simpl.
  split; [by destruct (bool_decide _)|]. split.
  - destruct (bool_decide _); destruct Hm as [-> | ->]; done.
  - split; [done|]. split; [done|]. by rewrite bool_decide_eq_true.
Qed.

Lemma click_synced m p : synced m p -> synced m (click p).
Proof.
  intros (c & Hs & Hm & Ht & Hl & Hst). unfold click, toggle. rewrite Hl, Hs.
  exists (negb c). simpl. split; [done|]. split.
  - rewrite Hm. by destruct (mainContent m).
  - split; [done|]. split; [done|]. destruct c; simpl; split; congruence.
Qed.

Lemma clicks_synced m n p : synced m p -> synced m (clicks n p).
Proof.
  intros H. induction n as [|n IH]; simpl; [done|]. by apply click_synced.
Qed.

(** X14: the sidebar state survives a reload: after loading a page whose
    markup serves the sidebar expanded, with whatever the storage held,
    and any number of clicks on the toggle, loading the page again with
    the storage as the clicks left it shows the sidebar and the main
    content collapsed or expanded exactly as before the reload. *)
Theorem sidebar_state_survives_reload m st n :
  expanded_markup m ->
  let p := clicks n (load m st) in
  let p' := load m (stored p) in
  sidebar p' = sidebar p /\ mainContent p' = mainContent p /\ stored p' = stored p.
Proof.
  intros Hm p p'.
  destruct (clicks_synced m n _ (load_synced m st Hm)) as (c & Hs & Hmc & _ & _ & Hst).
  fold p in Hs, Hmc, Hst.
  destruct (load_synced m (stored p) Hm) as (c' & Hs' & Hmc' & _ & _ & Hst').
  fold p' in Hs', Hmc', Hst'.
  assert (Hstored : stored p' = stored p).
  { subst p'. unfold load, initSidebarToggle. simpl.
    destruct Hm as (-> & -> & _). done. }
  assert (c' = c) as ->.
  { rewrite Hstored in Hst'. destruct c, c'; try done.
    - assert (Hx : stored p = Some "true") by by apply Hst.
      apply Hst' in Hx. discriminate.
    - assert (Hx : stored p = Some "true") by by apply Hst'.
      apply Hst in Hx. discriminate. }
  by rewrite Hs, Hs', Hmc, Hmc'.
Qed.

Lemma sidebar_state_survives_reload_witness :
  sidebar (load sample_markup (stored (clicks 3 (load sample_markup (Some "garbage")))))
  = Some true.
Proof.
  destruct (sidebar_state_survives_reload sample_markup (Some "garbage") 3) as (H & _).
  - repeat split; auto.
  - rewrite H. reflexivity.
Defined.

(** X15: without the sidebar or without the toggle button the script does
    nothing: no class is changed, no listener is registered, and clicks
    change neither the page nor the storage. *)
Theorem sidebar_script_needs_both_elements m st n :
  sidebar m = None \/ sidebarToggle m = false ->
  let p := load m st in
  p = Page (sidebar m) (sidebarToggle m) (mainContent m) st false /\
  clicks n p = p.
Proof.
  intros H p.
  assert (Hp : p = Page (sidebar m) (sidebarToggle m) (mainContent m) st false).
  { subst p. unfold load, initSidebarToggle. simpl.
    destruct H as [-> | ->]; [done|]. by destruct (sidebar m). }
  split; [exact Hp|]. rewrite Hp.
  induction n as [|n IH]; simpl; [done|]. by rewrite IH.
Qed.

Lemma sidebar_script_needs_both_elements_witness :
  clicks 2 (load (Page (Some true) false None None false) (Some "true"))
  = Page (Some true) false None (Some "true") false.
Proof.
  destruct (sidebar_script_needs_both_elements (Page (Some true) false None None false)
              (Some "true") 2 (or_intror eq_refl)) as [H1 H2].
  rewrite H2. exact H1.
Defined.

End SidebarFacts.

(* ===================================================================== *)
(** * Properties of the logs table *)
(* ===================================================================== *)

Module LogsTableFacts.
Import JsString LogsTable.





(** X17: the table shows the latest ten logs, newest first: for a non-empty
    reply of [n] logs there are [min 10 n] rows, and row [i] is built from
    the log at position [n - 1 - i] of the reply; an empty reply shows the
    "No logs yet" row. *)
Theorem logs_table_shows_latest_ten (logs : list (gmap string value)) :
  refreshLogs [] = NoLogsYet /\
  (logs <> [] ->
   exists rows,
     refreshLogs logs = Rows rows /\
     List.length rows = Nat.min 10 (List.length logs) /\
     forall i, i < List.length rows ->
       rows !! i = row_of <$> logs !! (List.length logs - 1 - i)).
Proof.
  split; [reflexivity|]. intros Hne.
  assert (Hn : 0 < List.length logs) by (destruct logs; simpl; [done | lia]).
  unfold refreshLogs. destruct (Nat.eqb_spec (List.length logs) 0) as [E|_]; [lia|].
  eexists. split; [reflexivity|].
  assert (Hlen : List.length (row_of <$> reverse (slice_last 10 logs))
                 = Nat.min 10 (List.length logs)).
  { unfold slice_last. rewrite length_fmap, length_reverse, length_drop. lia. }
  split; [exact Hlen|]. intros i Hi. rewrite Hlen in Hi.
  rewrite list_lookup_fmap. f_equal.
  unfold slice_last. rewrite reverse_lookup by (rewrite length_drop; lia).
  rewrite lookup_drop, length_drop. f_equal. lia.
Qed.

Lemma logs_table_shows_latest_ten_witness :
  exists rows,
    refreshLogs (replicate 12 sample_log) = Rows rows /\
    List.length rows = 10.
Proof.
  destruct (logs_table_shows_latest_ten (replicate 12 sample_log)) as [_ H].
  destruct H as (rows & Hr & Hl & _); [discriminate|].
  exists rows. split; [exact Hr | exact Hl].
Defined.

End LogsTableFacts.

(* ===================================================================== *)
(** * Properties of the health label and the details dialog *)
(* ===================================================================== *)

Module HealthFacts.
Import Health.

Lemma at_least_spec q c : at_least (Some q) c = true <-> (inject_Z c <= q)%Q.
Proof. apply Qle_bool_iff. Qed.

Lemma at_least_mono q q' c :
  (q <= q')%Q -> at_least (Some q) c = true -> at_least (Some q') c = true.
Proof.
  rewrite !at_least_spec. intros H1 H2. eapply Qle_trans; [exact H2 | exact H1].
Qed.

Lemma at_least_80_50 h : at_least h 80 = true -> at_least h 50 = true.
Proof.
  destruct h as [q|]; [|done]. rewrite !at_least_spec.
  intros H. eapply Qle_trans; [|exact H]. done.
Qed.

(** X19: the health word and its colour always go together, a missing score
    reads "Critical", the words change exactly at 80 and at 50, and a
    higher score never gets a worse word. *)
Theorem health_word_and_colour_agree (h : option Q) :
  ((word h = "Optimal" /\ className h = "text-green-400") \/
   (word h = "Moderate" /\ className h = "text-orange-400") \/
   (word h = "Critical" /\ className h = "text-red-400")) /\
  word None = "Critical" /\
  (forall q, word (Some q) = "Optimal" <-> (80 <= q)%Q) /\
  (forall q, word (Some q) = "Critical" <-> (q < 50)%Q) /\
  (forall q q', (q <= q')%Q -> rank (word (Some q)) <= rank (word (Some q'))).
Proof.
  split; [|split; [|split; [|split]]].
  - unfold word, className.
    destruct (at_least h 80); [by left|].
    destruct (at_least h 50); [right; by left | right; by right].
  - reflexivity.
  - intros q. unfold word. rewrite <- (at_least_spec q 80).
    destruct (at_least (Some q) 80); [done|].
    destruct (at_least (Some q) 50); split; done.
  - intros q. unfold word.
    destruct (at_least (Some q) 80) eqn:H80.
    + split; [done|]. intros Hlt. apply at_least_80_50, at_least_spec in H80.
      exfalso. eapply Qlt_not_le; [exact Hlt | exact H80].
    + destruct (at_least (Some q) 50) eqn:H50.
      * split; [done|]. intros Hlt. apply at_least_spec in H50.
        exfalso. eapply Qlt_not_le; [exact Hlt | exact H50].
      * split; [|done]. intros _. apply Qnot_le_lt. intros Hle.
        apply at_least_spec in Hle. congruence.
  - intros q q' Hle. unfold word.
    destruct (at_least (Some q) 80) eqn:H80.
    + by rewrite (at_least_mono q q' 80 Hle H80).
    + destruct (at_least (Some q) 50) eqn:H50.
      * rewrite (at_least_mono q q' 50 Hle H50).
        destruct (at_least (Some q') 80); vm_compute; lia.
      * destruct (at_least (Some q') 80); [vm_compute; lia|].
        destruct (at_least (Some q') 50); vm_compute; lia.
Qed.

Lemma health_word_and_colour_agree_witness :
  word (Some (799 # 10)%Q) = "Moderate" /\ word (Some (80 # 1)%Q) = "Optimal".
Proof.
  destruct (health_word_and_colour_agree None) as (_ & _ & Hopt & _ & _).
  split; [reflexivity|]. apply Hopt. discriminate.
Defined.

End HealthFacts.

Module AlertDetailsFacts.
Import JsString Alerts AlertDetails.

Lemma length_remove_dups_le (l : list field) :
  List.length (remove_dups l) <= List.length l.
Proof.
  induction l as [|x l IH]; simpl; [done|].
  destruct (decide_rel elem_of x l); simpl; lia.
Qed.

Lemma remove_dups_nil_inv (l : list field) : remove_dups l = [] -> l = [].
Proof.
  destruct l as [|x l]; [done|]. intros H. exfalso.
  assert (Hx : x ∈ remove_dups (x :: l)) by (apply elem_of_remove_dups; left).
  rewrite H in Hx. by apply elem_of_nil in Hx.
Qed.

(** X20: the details dialog counts what it lists: the total is the number of
    alerts of the reply with exactly the chosen label, the rows are those
    alerts in the order of the reply, the empty message is shown exactly
    when there is none; the number of unique addresses is the number of
    different [source_ip] values among the rows (a missing address counts
    as one value), so it is at most the total and is zero only when the
    total is. *)
Theorem details_dialog_counts threatType allAlerts :
  let m := showAlertDetails threatType allAlerts in
  let listed := List.filter (fun a => strict_eq (threat_label a) threatType) allAlerts in
  modalTotal m = tally threatType allAlerts /\
  modalUniqueIPs m <= modalTotal m /\
  (modalUniqueIPs m = 0 <-> modalTotal m = 0) /\
  (modalTotal m = 0 <-> modalAlertsBody m = NoneFound (toLowerCase threatType)) /\
  (modalTotal m <> 0 -> modalAlertsBody m = Rows listed) /\
  sublist listed allAlerts /\
  Forall (fun a => threat_label a = Str threatType) listed /\
  (exists ips, NoDup ips /\ List.length ips = modalUniqueIPs m /\
               forall ip, ip ∈ ips <-> exists a, a ∈ listed /\ source_ip a = ip).
Proof.
  intros m listed. subst m. unfold showAlertDetails. fold listed.
  cbn [modalTotal modalUniqueIPs modalAlertsBody]. unfold set_size.
  split; [reflexivity|]. split; [|split; [|split; [|split; [|split; [|split]]]]].
  - etrans; [apply length_remove_dups_le|]. by rewrite length_fmap.
  - split.
    + intros H. apply nil_length_inv, remove_dups_nil_inv, fmap_nil_inv in H.
      by rewrite H.
    + intros H. apply nil_length_inv in H. by rewrite H.
  - destruct (Nat.eqb_spec (List.length listed) 0); split; done.
  - intros H. by destruct (Nat.eqb_spec (List.length listed) 0).
  - apply FilterFacts.filter_sublist.
  - apply Forall_forall. intros a Ha.
    apply list_elem_of_In, filter_In in Ha as [_ Ha].
    destruct (threat_label a) as [| |t]; simpl in Ha; try done.
    apply String.eqb_eq in Ha. by subst.
  - exists (remove_dups (source_ip <$> listed)).
    split; [apply NoDup_remove_dups|]. split; [done|].
    intros ip. rewrite elem_of_remove_dups, list_elem_of_fmap.
    split; intros (a & H1 & H2); exists a; done.
Qed.

Lemma details_dialog_counts_witness :
  modalAlertsBody (showAlertDetails "Attack" [nameless "a"; nameless "b"])
  = Rows [nameless "a"; nameless "b"] /\
  modalUniqueIPs (showAlertDetails "Attack" [nameless "a"; nameless "b"]) = 1.
Proof.
  destruct (details_dialog_counts "Attack" [nameless "a"; nameless "b"])
    as (_ & _ & _ & _ & Hrows & _).
  split; [apply Hrows; discriminate | reflexivity].
Defined.

End AlertDetailsFacts.

(* ===================================================================== *)
(** * Properties of the fetch helper *)
(* ===================================================================== *)

Module ApiFacts.
Import JsString Http Api.

(** X21: [api] hands back a body only for a response with a status from 200 to
    299 whose body parses; a run of the detection page parked on a
    request that comes back with any other status, well-formed body or
    not, ends with the job state reset, the stored results untouched and
    the dialog "Detection failed: <status> <status text>". *)
Theorem http_error_status_is_reported p i t status statusText body entry :
  Detect.pending p !! i = Some t -> Detect.is_run t = true ->
  ~ (200 <= status <= 299)%Z ->
  let p' := Detect.settle i (api (Response status statusText body)) entry p in
  Detect.detectionInProgress p' = false /\
  Detect.allDetectionResults p' = Detect.allDetectionResults p /\
  Detect.dialogs p' =
    Detect.dialogs p ++ [DetectionFailed (ApiError (status_line status statusText))] /\
  (forall f o, api f = Body o <->
     exists st txt, f = Response st txt (inr o) /\ (200 <= st <= 299)%Z).
Proof.
  intros Hi Hrun Hbad.
  assert (Hok : ok status = false).
  { unfold ok. apply andb_false_iff.
    destruct (Z.leb_spec 200 status); [|by left].
    destruct (Z.leb_spec status 299); [lia | by right]. }
  cbv zeta. unfold api. rewrite Hok. cbn [negb].
  unfold Detect.settle. rewrite Hi.
  split; [|split; [|split]]; try (destruct t; [| |done]; done).
  intros f o. split.
  - destruct f as [m|st txt b]; [done|].
    destruct (ok st) eqn:Hst; [|done]. cbn [negb].
    destruct b as [m|o']; [done|]. intros [= ->].
    exists st, txt. split; [done|].
    unfold ok in Hst. apply andb_true_iff in Hst as [H1 H2].
    apply Z.leb_le in H1, H2. lia.
  - intros (st & txt & -> & H1). 
    assert (ok st = true) as ->; [|done].
    unfold ok. apply andb_true_iff. split; apply Z.leb_le; lia.
Qed.

Lemma http_error_status_is_reported_witness :
  Detect.dialogs
    (Detect.settle 0 (api (Response 500 "Internal Server Error" (inr Detect.many_logs)))
       None Detect.running)
  = [DetectionFailed (ApiError "500 Internal Server Error")].
Proof.
  destruct (http_error_status_is_reported Detect.running 0 Detect.AwaitCount 500
              "Internal Server Error" (inr Detect.many_logs) None eq_refl eq_refl)
    as (_ & _ & H & _).
  - lia.
  - rewrite H. vm_compute. reflexivity.
Defined.

End ApiFacts.


Module LogsPageFacts.
Import JsString LogsTable.

Lemma latest_rows {A B} (f : A -> B) (keep : nat) (logs : list A) i :
  i < Nat.min keep (List.length logs) ->
  (f <$> reverse (slice_last keep logs)) !! i = f <$> logs !! (List.length logs - 1 - i).
Proof.
  intros Hi. rewrite list_lookup_fmap. f_equal.
  unfold slice_last. rewrite reverse_lookup by (rewrite length_drop; lia).
  rewrite lookup_drop, length_drop. f_equal. lia.
Qed.

(** X18: on the logs page the counter shows how many logs the backend holds
    while the table shows at most the latest fifty, newest first; a
    failed request replaces the table by the failure row and leaves the
    counter at its old value. *)
Theorem logs_page_counter_and_rows logs (p : LogsPage.page) :
  let p' := LogsPage.refreshLogs (LogsPage.Logs logs) p in
  LogsPage.logsCount p' = List.length logs /\
  (logs = [] -> LogsPage.logsBody p' = LogsPage.NoLogsYet) /\
  (logs <> [] ->
   exists rows,
     LogsPage.logsBody p' = LogsPage.Rows rows /\
     List.length rows = Nat.min 50 (List.length logs) /\
     forall i, i < List.length rows ->
       rows !! i = LogsPage.row_of <$> logs !! (List.length logs - 1 - i)) /\
  LogsPage.refreshLogs LogsPage.Failed p
  = LogsPage.Page (LogsPage.logsCount p) LogsPage.FailedToLoad.
Proof.
  cbv zeta. unfold LogsPage.refreshLogs. cbn [LogsPage.logsCount LogsPage.logsBody].
  split; [by destruct (List.length logs =? 0)%nat|].
  split; [by intros ->|]. split; [|reflexivity].
  intros Hne.
  assert (Hn : 0 < List.length logs) by (destruct logs; simpl; [done | lia]).
  destruct (Nat.eqb_spec (List.length logs) 0) as [E|_]; [lia|].
  eexists. split; [reflexivity|].
  assert (Hlen : List.length (LogsPage.row_of <$> reverse (slice_last 50 logs))
                 = Nat.min 50 (List.length logs)).
  { unfold slice_last. rewrite length_fmap, length_reverse, length_drop. lia. }
  split; [exact Hlen|]. intros i Hi. rewrite Hlen in Hi.
  by apply latest_rows.
Qed.

Lemma logs_page_counter_and_rows_witness :
  exists rows,
    LogsPage.logsBody
      (LogsPage.refreshLogs (LogsPage.Logs (replicate 60 sample_log))
         (LogsPage.Page 0 LogsPage.NoLogsYet)) = LogsPage.Rows rows /\
    List.length rows = 50.
Proof.
  destruct (logs_page_counter_and_rows (replicate 60 sample_log)
              (LogsPage.Page 0 LogsPage.NoLogsYet)) as (_ & _ & H & _).
  destruct H as (rows & Hr & Hl & _); [discriminate|].
  exists rows. split; [exact Hr | exact Hl].
Defined.

End LogsPageFacts.
